(** * CSE255 homework pipelines: n-gram counting (hw1) and tweet token
      popularity (hw2)

    A shallow embedding of [hw1/hw1.py] and [hw2/hw2.py].

    - Python 2 byte strings ([str]) are [String.string]; the character
      predicates are those of the C locale.  Tokens are compared byte by
      byte, which on UTF-8 text is the order of the code points.
    - Python 2 [unicode] strings are lists of code points.  Their
      character methods read the Unicode character database, which is a
      parameter ([Py.Unicode.database]).  The sentences of hw1 are
      [unicode] objects, so [myfilter] is modelled on both string types:
      [HW1.myfilter] on [str], [HW1.Unicode.myfilter] on [unicode].  The
      n-gram pipeline is stated on [str]; what is proved of it does not
      inspect the characters.
    - Python integers are [Z].
    - A Spark RDD is the list of its elements; a transformation is a list
      function and an action evaluates it.  An exception raised inside a
      transformation aborts the job, which is the [Raise] outcome of the
      [result] monad.
    - A Python float is the real number it denotes.  Every float
      operation rounds its exact result with [round], the conversion of
      an integer checks the range of the floats, and [math.log] calls
      the logarithm of the C library, [libm_log]; [round] and [libm_log]
      are parameters of [HW2.get_rel_popularity].  The rankings are
      stated with the score free of rounding,
      [HW2.get_rel_popularity_exact]; what is proved of their order
      holds for any scores. *)

From Stdlib Require Import ZArith List Bool Ascii String DecimalString Lia.
From Stdlib Require Import Permutation Sorting.Sorted.
From Stdlib Require Import Reals Lra.
Import ListNotations.

Local Open Scope string_scope.
Local Open Scope Z_scope.

(** ** Python run-time: exceptions, indexing, slices, string methods *)

Module Py.

Inductive exn : Type :=
| ValueError
| KeyError
| IndexError
| TypeError
| AttributeError
| ZeroDivisionError
| OverflowError.

(** Outcome of evaluating an expression that may raise. *)
Inductive result (A : Type) : Type :=
| Return (a : A)
| Raise (e : exn).
Arguments Return {A} a.
Arguments Raise {A} e.

Definition bind {A B} (m : result A) (k : A -> result B) : result B :=
  match m with
  | Return a => k a
  | Raise e => Raise e
  end.

(** [map] of a function that may raise: the first exception wins. *)
Fixpoint mapM {A B} (f : A -> result B) (l : list A) : result (list B) :=
  match l with
  | [] => Return []
  | x :: l' =>
      bind (f x) (fun y => bind (mapM f l') (fun ys => Return (y :: ys)))
  end.

(** [range(n)] *)
Definition range (n : Z) : list Z := map Z.of_nat (seq 0 (Z.to_nat n)).

(** A slice bound, as [PySlice_GetIndicesEx] adjusts it for step 1. *)
Definition adjust (len i : Z) : Z :=
  if i <? 0 then Z.max 0 (i + len) else Z.min i len.

(** [l[i:j]] *)
Definition slice {A} (l : list A) (i j : Z) : list A :=
  let len := Z.of_nat (List.length l) in
  let lo := adjust len i in
  let hi := adjust len j in
  firstn (Z.to_nat (hi - lo)) (skipn (Z.to_nat lo) l).

(** [l[i]] *)
Definition getitem {A} (l : list A) (i : Z) : result A :=
  let len := Z.of_nat (List.length l) in
  let k := if i <? 0 then i + len else i in
  if (k <? 0) || (len <=? k) then Raise IndexError
  else match nth_error l (Z.to_nat k) with
       | Some x => Return x
       | None => Raise IndexError
       end.

(** Character classes of [str] in the C locale. *)
Definition isdigit (ch : ascii) : bool :=
  let n := nat_of_ascii ch in ((48 <=? n) && (n <=? 57))%nat.

Definition isupper (ch : ascii) : bool :=
  let n := nat_of_ascii ch in ((65 <=? n) && (n <=? 90))%nat.

Definition islower (ch : ascii) : bool :=
  let n := nat_of_ascii ch in ((97 <=? n) && (n <=? 122))%nat.

Definition isalpha (ch : ascii) : bool := isupper ch || islower ch.

Definition isspace (ch : ascii) : bool :=
  let n := nat_of_ascii ch in ((9 <=? n) && (n <=? 13) || (n =? 32))%nat.

(** [ch.lower()] *)
Definition lower (ch : ascii) : ascii :=
  if isupper ch then ascii_of_nat (nat_of_ascii ch + 32) else ch.

(** [s.lower()] *)
Fixpoint lower_str (s : string) : string :=
  match s with
  | EmptyString => EmptyString
  | String ch s' => String (lower ch) (lower_str s')
  end.

(** [s.split()]: maximal runs of non-whitespace characters. [w] is the
    word being read. *)
Fixpoint split_from (w s : string) : list string :=
  match s with
  | EmptyString => if String.eqb w "" then [] else [w]
  | String ch s' =>
      if isspace ch
      then (if String.eqb w "" then split_from "" s'
            else w :: split_from "" s')
      else split_from (w ++ String ch "") s'
  end.

Definition split (s : string) : list string := split_from "" s.

(** [sep.join(l)] *)
Fixpoint join (sep : string) (l : list string) : string :=
  match l with
  | [] => ""
  | [x] => x
  | x :: l' => x ++ sep ++ join sep l'
  end.

(** A dict is the list of its items; [eqb] compares keys. *)
Section Dict.
Context {K V : Type} (eqb : K -> K -> bool).

(** [d.get(k)] *)
Fixpoint lookup (k : K) (d : list (K * V)) : option V :=
  match d with
  | [] => None
  | (k', v) :: d' => if eqb k k' then Some v else lookup k d'
  end.

(** [k in d] *)
Definition contains (d : list (K * V)) (k : K) : bool :=
  match lookup k d with Some _ => true | None => false end.

(** [d[k]] *)
Definition dict_getitem (d : list (K * V)) (k : K) : result V :=
  match lookup k d with
  | Some v => Return v
  | None => Raise KeyError
  end.
End Dict.

(** ['%d' % n] *)
Definition fmt_d (n : Z) : string := NilEmpty.string_of_int (Z.to_int n).

Definition tab : string := String "009" "".
Definition nl : string := String "010" "".
Definition dquote : string := String "034" "".

(** A statement that prints: the lines written so far are threaded
    through, and they survive an exception. *)
Definition io (A : Type) : Type := list string -> list string * result A.

Definition io_ret {A} (a : A) : io A := fun out => (out, Return a).

Definition io_bind {A B} (m : io A) (k : A -> io B) : io B :=
  fun out =>
    match m out with
    | (out', Return a) => k a out'
    | (out', Raise e) => (out', Raise e)
    end.

Definition lift {A} (r : result A) : io A := fun out => (out, r).

(** [print s] *)
Definition print (s : string) : io unit :=
  fun out => ((out ++ [s])%list, Return tt).

(** [for i in l: body] *)
Fixpoint for_each {A} (l : list A) (body : A -> io unit) : io unit :=
  match l with
  | [] => io_ret tt
  | i :: l' => io_bind (body i) (fun _ => for_each l' body)
  end.

(** [unicode] strings: the list of the code points. *)
Module Unicode.

Definition unicode : Type := list N.

(** The Unicode character database, as the methods of a character read
    it: [ch.isdigit()], [ch.isalpha()], [ch.lower()].  In Python 2 the
    lowercase form of a character is one character. *)
Class database : Type := {
  isdigit : N -> bool;
  isalpha : N -> bool;
  lower : N -> N
}.

(** [u' '] *)
Definition space : N := 32.

(** [unicode(s)] for ASCII text [s], and a literal [u'...']. *)
Definition decode (s : string) : unicode :=
  map N_of_ascii (list_ascii_of_string s).

End Unicode.

End Py.

Declare Scope py_scope.
Delimit Scope py_scope with py.
Notation "x <- m ;; k" := (Py.bind m (fun x => k))
  (at level 61, m at next level, right associativity) : py_scope.

Declare Scope io_scope.
Delimit Scope io_scope with io.
Notation "x <- m ;; k" := (Py.io_bind m (fun x => k))
  (at level 61, m at next level, right associativity) : io_scope.
Notation "m ;; k" := (Py.io_bind m (fun _ => k))
  (at level 61, right associativity) : io_scope.

(** ** Spark: an RDD as the list of its elements *)

Module Spark.

Definition flatMap {A B} (f : A -> list B) (rdd : list A) : list B :=
  flat_map f rdd.

Definition take {A} (n : nat) (rdd : list A) : list A := firstn n rdd.

Section PairRDD.
Context {K V : Type} (eqb : K -> K -> bool).

(** Merge one record into the combiners built so far. *)
Fixpoint merge_value (f : V -> V -> V) (k : K) (v : V)
         (acc : list (K * V)) : list (K * V) :=
  match acc with
  | [] => [(k, v)]
  | (k', v') :: acc' =>
      if eqb k k' then (k', f v' v) :: acc'
      else (k', v') :: merge_value f k v acc'
  end.

(** [rdd.reduceByKey(f)]: one record per key, the values of a key
    folded with [f].  The order of the result is Spark's business; the
    model keeps the keys in order of first occurrence. *)
Definition reduceByKey (f : V -> V -> V) (rdd : list (K * V))
  : list (K * V) :=
  fold_left (fun acc kv => merge_value f (fst kv) (snd kv) acc) rdd [].

Definition mapValues {W} (f : V -> W) (rdd : list (K * V))
  : list (K * W) :=
  map (fun kv => (fst kv, f (snd kv))) rdd.

Definition flatMapValues {W} (f : V -> list W) (rdd : list (K * V))
  : list (K * W) :=
  flat_map (fun kv => map (fun w => (fst kv, w)) (f (snd kv))) rdd.
End PairRDD.

(** [rdd.collectAsMap()] *)
Definition collectAsMap {K V} (rdd : list (K * V)) : list (K * V) := rdd.

Section Sort.
Context {A K : Type} (key : A -> K) (leb : K -> K -> bool).

Fixpoint insert_by (x : A) (l : list A) : list A :=
  match l with
  | [] => [x]
  | y :: l' =>
      if leb (key x) (key y) then x :: l else y :: insert_by x l'
  end.

(** [rdd.sortBy(key)]: ascending in the key, records of equal key in
    their order of arrival. *)
Definition sortBy (rdd : list A) : list A :=
  fold_right insert_by [] rdd.
End Sort.

(** [portable_hash] of a small integer: CPython hashes an [int] to
    itself, except that [hash(-1)] is [-2]. *)
Definition portable_hash (k : Z) : Z := if k =? -1 then -2 else k.

(** [rdd.partitionBy(n).glom().collect()] for integer keys. *)
Definition glom_partitionBy {V} (n : Z) (rdd : list (Z * V))
  : list (list (Z * V)) :=
  map (fun i => filter (fun kv => portable_hash (fst kv) mod n =? i) rdd)
      (Py.range n).

End Spark.

(** ** hw1: n-gram counting *)

Module HW1.
Import Py.

(** One iteration of the loop of [myfilter]. *)
Definition myfilter_step (res : string) (ch : ascii) : string :=
  if isdigit ch then res ++ String ch ""
  else if isalpha ch then res ++ String (lower ch) ""
  else res ++ " ".

Fixpoint myfilter_loop (res sentence : string) : string :=
  match sentence with
  | EmptyString => res
  | String ch rest => myfilter_loop (myfilter_step res ch) rest
  end.

Definition myfilter (sentence : string) : string :=
  myfilter_loop "" sentence.

(** The same function on a [unicode] sentence, which is what the job
    passes: the methods of [ch] are those of a Unicode character. *)
Module Unicode.
Import Py.Unicode.

Section Database.
Context {db : database}.

Definition myfilter_step (res : unicode) (ch : N) : unicode :=
  if isdigit ch then (res ++ [ch])%list
  else if isalpha ch then (res ++ [lower ch])%list
  else (res ++ [space])%list.

Fixpoint myfilter_loop (res sentence : unicode) : unicode :=
  match sentence with
  | [] => res
  | ch :: rest => myfilter_loop (myfilter_step res ch) rest
  end.

Definition myfilter (sentence : unicode) : unicode :=
  myfilter_loop [] sentence.
End Database.

End Unicode.

(** The loop of [mysplit]. *)
Definition mysplit (sentence : string) (n : Z) : list string :=
  let words := split sentence in
  fold_left (fun res i => (res ++ [join " " (slice words i (i + n))])%list)
            (range (Z.of_nat (List.length words) - n + 1)) [].

(** The body of the loop over [n], from [sentences] to the sorted RDD. *)
Definition freq_ngramRDD (sentences : list string) (n : Z)
  : list (string * Z) :=
  let filtered_sentences := map (fun x => myfilter x) sentences in
  Spark.sortBy (fun x : string * Z => - snd x) Z.leb
    (Spark.reduceByKey String.eqb (fun a b => a + b)
       (map (fun word => (word, 1))
          (Spark.flatMap (fun x => mysplit x n) filtered_sentences))).

Local Open Scope io_scope.

Definition printOutput (n : Z) (freq_ngramRDD : list (string * Z))
  : io unit :=
  let top := Spark.take 5 freq_ngramRDD in
  print (nl ++ "============ " ++ fmt_d 5 ++ " most frequent "
            ++ fmt_d n ++ "-grams") ;;
  print (nl ++ "index" ++ tab ++ "count" ++ tab ++ "ngram") ;;
  for_each (range 5) (fun i =>
    top_i <- lift (getitem top i) ;;
    print (fmt_d (i + 1) ++ "." ++ tab ++ fmt_d (snd top_i) ++ ": " ++ tab
              ++ dquote ++ fst top_i ++ dquote)).

(** [for n in range(1,6): ... printOutput(n, freq_ngramRDD)] *)
Definition main (sentences : list string) : io unit :=
  for_each [1; 2; 3; 4; 5]
           (fun n => printOutput n (freq_ngramRDD sentences n)).

Local Close Scope io_scope.

(** [x.split(". ")]: the pieces between the occurrences of the separator,
    found from the left. [piece] is the piece being read. *)
Fixpoint split_dot_from (piece s : string) : list string :=
  match s with
  | EmptyString => [piece]
  | String ch rest =>
      match rest with
      | String ch' rest' =>
          if Ascii.eqb ch "." && Ascii.eqb ch' " "
          then piece :: split_dot_from "" rest'
          else split_dot_from (piece ++ String ch "") rest
      | EmptyString => split_dot_from (piece ++ String ch "") rest
      end
  end.

Definition split_dot (x : string) : list string := split_dot_from "" x.

(** [sentences = textRDD.flatMap(lambda x: x.split(". "))] *)
Definition sentences (textRDD : list string) : list string :=
  Spark.flatMap (fun x => split_dot x) textRDD.

End HW1.


(** ** Regular expressions: the fragment of [re] the tokenizer uses

    Matching is by backtracking, alternatives in the order written and
    quantifiers greedy, under [re.IGNORECASE] and [re.UNICODE]; the
    character categories are those of ASCII text, to which [unicode(s)]
    confines the text of the tokenizer. *)

Module Re.
Import Py.

Inductive item : Type :=
| Lit (c : ascii)
| Range (lo hi : ascii)
| Word                      (* \w *)
| Digit                     (* \d *)
| Space.                    (* \s *)

Inductive regex : Type :=
| In_ (negate : bool) (items : list item)   (* [...] and [^...] *)
| Eps
| Cat (r1 r2 : regex)
| Alt (r1 r2 : regex)
| Opt (r : regex)                            (* r? *)
| Star (r : regex)                           (* r* *)
| Plus (r : regex).                          (* r+ *)

Definition upper (ch : ascii) : ascii :=
  if islower ch then ascii_of_nat (nat_of_ascii ch - 32) else ch.

Definition item_has (it : item) (ch : ascii) : bool :=
  match it with
  | Lit c => Ascii.eqb ch c
  | Range lo hi =>
      ((nat_of_ascii lo <=? nat_of_ascii ch)
       && (nat_of_ascii ch <=? nat_of_ascii hi))%nat
  | Word => isalpha ch || isdigit ch || Ascii.eqb ch "_"
  | Digit => isdigit ch
  | Space =>
      (* under re.UNICODE the separators 0x1c to 0x1f are whitespace *)
      isspace ch
      || ((28 <=? nat_of_ascii ch) && (nat_of_ascii ch <=? 31))%nat
  end.

(** Membership of a character in a class, ignoring case. *)
Definition in_class (negate : bool) (items : list item) (ch : ascii)
  : bool :=
  xorb negate
       (existsb (fun it => item_has it ch || item_has it (lower ch)
                           || item_has it (upper ch)) items).

(** [run fuel r s k]: match [r] at the start of [s], then [k] on what is
    left; the first success in backtracking order.  [fuel] bounds the
    iterations of a star, each of which consumes a character. *)
Fixpoint run (fuel : nat)
  : regex -> string -> (string -> option string) -> option string :=
  fix go (r : regex) (s : string) (k : string -> option string)
    : option string :=
    let star (r1 : regex) :=
      match fuel with
      | O => k s
      | S fuel' =>
          match go r1 s (fun s1 =>
                           if (String.length s1 <? String.length s)%nat
                           then run fuel' (Star r1) s1 k
                           else None) with
          | Some rest => Some rest
          | None => k s
          end
      end in
    match r with
    | In_ negate items =>
        match s with
        | String ch s' => if in_class negate items ch then k s' else None
        | EmptyString => None
        end
    | Eps => k s
    | Cat r1 r2 => go r1 s (fun s1 => go r2 s1 k)
    | Alt r1 r2 =>
        match go r1 s k with
        | Some rest => Some rest
        | None => go r2 s k
        end
    | Opt r1 =>
        match go r1 s k with
        | Some rest => Some rest
        | None => k s
        end
    | Star r1 => star r1
    | Plus r1 =>
        go r1 s (fun s1 =>
                   match fuel with
                   | O => k s1
                   | S fuel' => run fuel' (Star r1) s1 k
                   end)
    end.

(** The text left after the first match of [r] at the start of [s]. *)
Definition match_prefix (r : regex) (s : string) : option string :=
  run (S (String.length s)) r s (fun rest => Some rest).

(** [r.search(s)] as a truth value. *)
Fixpoint search (r : regex) (s : string) : bool :=
  match match_prefix r s with
  | Some _ => true
  | None =>
      match s with
      | EmptyString => false
      | String _ s' => search r s'
      end
  end.

(** [r.findall(s)] for a pattern that is one group and matches no empty
    string: the matches, scanning from the left. *)
Fixpoint findall_fuel (fuel : nat) (r : regex) (s : string) : list string :=
  match fuel with
  | O => []
  | S fuel' =>
      match s with
      | EmptyString => []
      | String _ s' =>
          match match_prefix r s with
          | Some rest =>
              let n := (String.length s - String.length rest)%nat in
              if (0 <? n)%nat
              then substring 0 n s :: findall_fuel fuel' r rest
              else findall_fuel fuel' r s'
          | None => findall_fuel fuel' r s'
          end
      end
  end.

Definition findall (r : regex) (s : string) : list string :=
  findall_fuel (S (String.length s)) r s.

(** Whether [r] matches the whole of [s]. *)
Definition fullmatch (r : regex) (s : string) : bool :=
  match run (S (String.length s)) r s
            (fun rest => if String.eqb rest "" then Some rest else None) with
  | Some _ => true
  | None => false
  end.

(** Pattern syntax *)
Definition chars (s : string) : list item :=
  map Lit (list_ascii_of_string s).
Definition one (s : string) : regex := In_ false (chars s).
Definition seq_ (rs : list regex) : regex := fold_right Cat Eps rs.
Definition text (s : string) : regex :=
  seq_ (map (fun c => In_ false [Lit c]) (list_ascii_of_string s)).
Fixpoint alt (rs : list regex) : regex :=
  match rs with
  | [] => In_ false []
  | [r] => r
  | r :: rs' => Alt r (alt rs')
  end.
Fixpoint times (n : nat) (r : regex) : regex :=
  match n with
  | O => Eps
  | S n' => Cat r (times n' r)
  end.

End Re.

(** ** hw2: tweets, user groups and relative popularity *)

Module HW2.
Import Py.

(** *** Part 1: parsing *)

(** What [ujson.loads] returns. A [JDict] holds the items of the dict. *)
#[local] Unset Elimination Schemes.
Inductive json : Type :=
| JNone
| JBool (b : bool)
| JInt (n : Z)
| JFloat (mantissa exponent : Z)
| JStr (s : string)
| JList (l : list json)
| JDict (items : list (string * json)).
#[local] Set Elimination Schemes.

(** [obj.keys()] *)
Definition keys (obj : json) : result (list string) :=
  match obj with
  | JDict items => Return (map fst items)
  | _ => Raise AttributeError
  end.

(** [obj[k]] for a string [k] *)
Definition subscript (obj : json) (k : string) : result json :=
  match obj with
  | JDict items => dict_getitem String.eqb items k
  | _ => Raise TypeError
  end.

Definition mem (k : string) (l : list string) : bool :=
  existsb (String.eqb k) l.

Section Parse.
(** [ujson.loads]; [Raise ValueError] on a line that is not JSON. *)
Variable ujson_loads : string -> result json.

Local Open Scope py_scope.

Definition safe_parse (raw_json : string) : result (list json) :=
  match ujson_loads raw_json with
  | Raise ValueError => Return []
  | Raise e => Raise e
  | Return json_object =>
      ks <- keys json_object ;;
      if negb (mem "user" ks) then Return []
      else Return [json_object]
  end.

(** [lambda x: (x['user']['id_str'], x['text'])] *)
Definition user_text (x : json) : result (json * json) :=
  user <- subscript x "user" ;;
  id_str <- subscript user "id_str" ;;
  text <- subscript x "text" ;;
  Return (id_str, text).

(** [contents.flatMap(safe_parse).map(...)], evaluated: Spark pipelines
    the two transformations record by record, and the first exception
    aborts the job. *)
Fixpoint usertweets (contents : list string)
  : result (list (json * json)) :=
  match contents with
  | [] => Return []
  | x :: rest =>
      objs <- safe_parse x ;;
      pairs <- mapM user_text objs ;;
      others <- usertweets rest ;;
      Return (pairs ++ others)%list
  end.
End Parse.

(** *** The tokenizer *)

Module Tokenizer.
Import Re.

Definition eyes : regex := one ":;=8".
Definition nose : regex := one "-o*'".
Definition mouth : regex := one ")]([dDpP/:}{@|\".

Definition emoticon_string : regex :=
  Alt (seq_ [Opt (one "<>"); eyes; Opt nose; mouth])
      (seq_ [mouth; Opt nose; eyes; Opt (one "<>")]).

Definition digit : regex := In_ false [Digit].
Definition hexdigit : regex :=
  In_ false [Range "0" "9"; Range "a" "f"; Range "A" "F"].
Definition word_char : regex := In_ false [Word; Lit "_"].

Definition phone_number : regex :=
  seq_ [Opt (seq_ [Opt (one "+"); one "01";
                   Star (In_ false [Lit "-"; Space; Lit "."])]);
        Opt (seq_ [Opt (one "("); times 3 digit;
                   Star (In_ false [Lit "-"; Space; Lit "."; Lit ")"])]);
        times 3 digit;
        Star (In_ false [Lit "-"; Space; Lit "."]);
        times 4 digit].

Definition url : regex :=
  seq_ [text "http"; Opt (one "s"); text "://";
        Plus (alt [In_ false [Range "a" "z"; Range "A" "Z"];
                   In_ false [Range "0" "9"];
                   In_ false [Range "$" "_"; Lit "@"; Lit "."; Lit "&";
                              Lit "+"];
                   one "!*(),";
                   seq_ [one "%"; hexdigit; hexdigit]])].

Definition html_tag : regex :=
  seq_ [one "<"; Plus (In_ true [Lit ">"]); one ">"].

Definition username : regex := seq_ [one "@"; Plus word_char].

Definition hashtag : regex :=
  seq_ [Plus (one "#"); Plus word_char;
        Star (In_ false [Word; Lit "'"; Lit "_"; Lit "-"]);
        Plus word_char].

Definition remaining : regex :=
  alt [seq_ [In_ false [Range "a" "z"];
             Plus (In_ false [Range "a" "z"; Lit "'"; Lit "-"; Lit "_"]);
             In_ false [Range "a" "z"]];
       seq_ [Opt (one "+-"); Plus digit; one ",/.:-"; Plus digit;
             Opt (one "+-")];
       Plus word_char;
       seq_ [one "."; Plus (seq_ [Star (In_ false [Space]); one "."])];
       In_ true [Space]].

Definition regex_strings : list regex :=
  [phone_number; url; emoticon_string; html_tag; username; hashtag;
   remaining].

Definition word_re : regex := alt regex_strings.

(** [re.compile(regex_strings[1], ...)] *)
Definition emoticon_re : regex := nth 1 regex_strings Eps.

Definition hex (n : nat) : ascii :=
  ascii_of_nat (if (n <? 10)%nat then 48 + n else 87 + n).

(** [s.encode('string_escape')], one character *)
Definition escape_char (ch : ascii) : string :=
  let n := nat_of_ascii ch in
  if Ascii.eqb ch "\" || Ascii.eqb ch "'" then String "\" (String ch "")
  else if (n =? 9)%nat then "\t"
  else if (n =? 10)%nat then "\n"
  else if (n =? 13)%nat then "\r"
  else if ((n <? 32) || (127 <=? n))%nat
       then String "\" (String "x" (String (hex (n / 16))
                                      (String (hex (n mod 16)) "")))
  else String ch "".

Fixpoint string_escape (s : string) : string :=
  match s with
  | EmptyString => EmptyString
  | String ch s' => escape_char ch ++ string_escape s'
  end.

Fixpoint is_ascii (s : string) : bool :=
  match s with
  | EmptyString => true
  | String ch s' => (nat_of_ascii ch <? 128)%nat && is_ascii s'
  end.

(** [unicode(s)] decodes as ASCII; on [UnicodeDecodeError] the escaped
    string is decoded instead. *)
Definition to_unicode (s : string) : string :=
  if is_ascii s then s else string_escape s.

Section Tokenize.
(** The HTML entity helper. Its text in the source is not valid
    Python (the body is indented at random), so it is a parameter. *)
Variable html2unicode : string -> string.
Variable preserve_case : bool.

Definition tokenize (s : string) : list string :=
  let s := to_unicode s in
  let s := html2unicode s in
  let words := findall word_re s in
  if negb preserve_case
  then map (fun x => if search emoticon_re x then x else lower_str x)
           words
  else words.
End Tokenize.
End Tokenizer.

(** *** Part 3: relative popularity *)

Local Open Scope R_scope.
Local Open Scope py_scope.

(** A float is the real number it denotes.  An operation computes the
    exact result and rounds it; infinities are left out, as the
    quotients of [get_rel_popularity] cannot reach them: the first
    divides by an integer, the second a logarithm by [log(2)]. *)
Section Floats.
(** The rounding of a real number to the nearest float. *)
Variable round : R -> R.
(** The logarithm of the C library, from floats to floats. *)
Variable libm_log : R -> R.

(** The least integer too large for a float: [2^1024 - 2^970] is half
    way between the largest float and [2^1024], and rounds to the
    latter. *)
Definition float_limit : Z := 2 ^ 1024 - 2 ^ 970.

(** The conversion of an integer operand of a float operation. *)
Definition float_of_int (n : Z) : result R :=
  if (float_limit <=? Z.abs n)%Z then Raise OverflowError
  else Return (round (IZR n)).

(** [a * n] for a float [a] and an integer [n] *)
Definition float_mul_int (a : R) (n : Z) : result R :=
  b <- float_of_int n ;;
  Return (round (a * b)).

(** [a / b] for floats *)
Definition float_div (a b : R) : result R :=
  if Req_dec_T b 0 then Raise ZeroDivisionError
  else Return (round (a / b)).

(** [a / n] for a float [a] and an integer [n] *)
Definition float_div_int (a : R) (n : Z) : result R :=
  b <- float_of_int n ;;
  float_div a b.

(** [math.log(x)] for a float [x] *)
Definition log (x : R) : result R :=
  if Rle_dec x 0 then Raise ValueError else Return (libm_log x).

(** [math.log(n)] for an integer [n] that is not a [long] *)
Definition log_int (n : Z) : result R :=
  x <- float_of_int n ;;
  log x.

Definition get_rel_popularity (c_k c_all : Z) : result R :=
  prod <- float_mul_int 1 c_k ;;
  ratio <- float_div_int prod c_all ;;
  num <- log ratio ;;
  den <- log_int 2 ;;
  float_div num den.
End Floats.

(** The score when no operation rounds and no integer is out of range:
    the rankings are stated with it. *)
Definition log_exact (x : R) : result R :=
  if Rle_dec x 0 then Raise ValueError else Return (ln x).

Definition truediv_exact (a b : R) : result R :=
  if Req_dec_T b 0 then Raise ZeroDivisionError else Return (a / b).

Definition get_rel_popularity_exact (c_k c_all : Z) : result R :=
  ratio <- truediv_exact (1 * IZR c_k) (IZR c_all) ;;
  num <- log_exact ratio ;;
  den <- log_exact 2 ;;
  truediv_exact num den.

Local Open Scope Z_scope.

(** [set(l)] and [a.union(b)]: a set is the list of its elements,
    without repetition. *)
Definition set (l : list string) : list string := nodup string_dec l.
Definition union (a b : list string) : list string :=
  nodup string_dec (a ++ b).

Definition group_token_eqb (a b : Z * string) : bool :=
  (fst a =? fst b) && String.eqb (snd a) (snd b).

(** Comparison of the sort keys [(-p, t)], as Python compares tuples. *)
Definition key_leb (a b : R * string) : bool :=
  if Rlt_dec (fst a) (fst b) then true
  else if Rlt_dec (fst b) (fst a) then false
  else String.leb (snd a) (snd b).

Section Pipeline.
(** [lambda text: tok.tokenize(text.encode('utf-8'))] *)
Variable tokenize : string -> list string.
(** The users partition, [{user_id: partition_id}]. *)
Variable mypickle : list (string * Z).
(** The (user id, text) pairs of the tweets. *)
Variable usertweets : list (string * string).

Definition inter_usertweets : list (string * list string) :=
  Spark.mapValues (fun x => x)
    (Spark.reduceByKey String.eqb (fun a b => union a b)
       (map (fun x => (fst x, set (tokenize (snd x)))) usertweets)).

Definition tokens : list (string * Z) :=
  Spark.sortBy (fun x : string * Z => snd x) (fun a b => b <=? a)
    (filter (fun x => snd x >=? 100)
       (Spark.reduceByKey String.eqb (fun a b => a + b)
          (map (fun word => (word, 1))
             (Spark.flatMap (fun x => snd x) inter_usertweets)))).

Definition dic : list (string * Z) := Spark.collectAsMap tokens.

Definition help4 (uid : string) : Z :=
  if contains String.eqb mypickle uid
  then match lookup String.eqb uid mypickle with
       | Some groupid => groupid
       | None => 7
       end
  else 7.

(** [interresults] up to [reduceByKey]: the number of mentions of each
    (group, token).  [dic] is the dict collected before, not recomputed
    per record. *)
Definition group_counts : list ((Z * string) * Z) :=
  let dic := dic in
  Spark.reduceByKey group_token_eqb (fun a b => a + b)
    (map (fun x => ((help4 (fst x), snd x), 1))
       (filter (fun x => contains String.eqb dic (snd x))
          (Spark.flatMapValues (fun x => x) inter_usertweets))).

Local Open Scope py_scope.

(** The scores are those of [get_rel_popularity_exact]: the counts of a
    job are far below [float_limit], and the order of the floats is the
    order of the real numbers they denote. *)
Definition interresults : result (list (list (Z * (string * R)))) :=
  scored <- mapM (fun x : (Z * string) * Z =>
                    c_all <- dict_getitem String.eqb dic
                               (snd (fst x)) ;;
                    p <- get_rel_popularity_exact (snd x) c_all ;;
                    Return (fst (fst x), (snd (fst x), p)))
                 group_counts ;;
  Return (Spark.glom_partitionBy 8 scored).

(** The body of the final loop: [temp] is the sorted RDD and
    [temp.take(10)] is what is handed to [print_tokens]. *)
Definition temp (part : list (Z * (string * R))) : list (string * R) :=
  Spark.sortBy (fun x : string * R => ((- snd x)%R, fst x)) key_leb
    (map (fun x => snd x) part).

Definition top10 (part : list (Z * (string * R))) : list (string * R) :=
  Spark.take 10 (temp part).

(** [for i in range(8): ... print_tokens(temp.take(10), i)] *)
Definition rankings : result (list (Z * list (string * R))) :=
  parts <- interresults ;;
  mapM (fun i => part <- getitem parts i ;; Return (i, top10 part))
       (range 8).
End Pipeline.

Section Posts.
Variable mypickle : list (string * Z).

Definition help1 (x : string * string) : Z * Z :=
  let uid := fst x in
  if contains String.eqb mypickle uid
  then match lookup String.eqb uid mypickle with
       | Some groupid => (groupid, 1)
       | None => (7, 1)
       end
  else (7, 1).

(** [result = usertweets.map(help1).reduceByKey(+).sortByKey()]; the
    name [result] is taken by the outcome type. *)
Definition result' (usertweets : list (string * string)) : list (Z * Z) :=
  Spark.sortBy (fun x : Z * Z => fst x) Z.leb
    (Spark.reduceByKey Z.eqb (fun a b => a + b)
       (map (fun x => help1 x) usertweets)).
End Posts.

Local Open Scope io_scope.

Definition print_post_count (counts : list (Z * Z)) : io unit :=
  for_each counts (fun x =>
    print ("Group " ++ fmt_d (fst x) ++ " posted " ++ fmt_d (snd x)
                    ++ " tweets")).

Local Close Scope io_scope.

Definition getKey (item : Z * (string * R)) : R := snd (snd item).

(** [sorted(A, key=getKey, reverse=True)]: descending in the key, records
    of equal key in their order in [A]. *)
Definition sorted_reverse (A : list (Z * (string * R)))
  : list (Z * (string * R)) :=
  Spark.sortBy getKey (fun a b => if Rle_dec b a then true else false) A.

Local Open Scope py_scope.

(** The loop [for i in range(n): res.append(B[i][1])]. *)
Fixpoint append_items (B : list (Z * (string * R))) (indices : list Z)
         (res : list (string * R)) : result (list (string * R)) :=
  match indices with
  | [] => Return res
  | i :: rest =>
      B_i <- getitem B i ;;
      append_items B rest (res ++ [snd B_i])%list
  end.

Definition largest10 (A : list (Z * (string * R)))
  : result (list (string * R)) :=
  let B := sorted_reverse A in
  append_items B (range 10) [].

End HW2.

(** ** Functions used to state the properties *)

Module Spec.
Import Py.

(** A string transformed character by character. *)
Fixpoint smap (f : ascii -> ascii) (s : string) : string :=
  match s with
  | EmptyString => EmptyString
  | String ch s' => String (f ch) (smap f s')
  end.

(** What [myfilter] appends for one character. *)
Definition normalize (ch : ascii) : ascii :=
  if isdigit ch then ch else if isalpha ch then lower ch else " "%char.

Fixpoint forall_chars (p : ascii -> bool) (s : string) : bool :=
  match s with
  | EmptyString => true
  | String ch s' => p ch && forall_chars p s'
  end.

(** A word as [split] yields them: not empty, and free of whitespace. *)
Definition is_word (w : string) : bool :=
  negb (String.eqb w "") && forall_chars (fun ch => negb (isspace ch)) w.

(** The window of [n] words that starts at word [i]. *)
Definition window (words : list string) (n : Z) (i : nat) : list string :=
  firstn (Z.to_nat n) (skipn i words).

(** The n-grams of all sentences, before they are counted. *)
Definition ngrams (sentences : list string) (n : Z) : list string :=
  flat_map (fun x => HW1.mysplit x n) (map HW1.myfilter sentences).

(** The values recorded for key [k], in order. *)
Definition values_of {K V} (eqb : K -> K -> bool) (k : K)
           (rdd : list (K * V)) : list V :=
  map snd (filter (fun kv => eqb k (fst kv)) rdd).

(** One more value folded into what a key has so far. *)
Definition combine {V} (f : V -> V -> V) (o : option V) (v : V) : option V :=
  Some (match o with Some a => f a v | None => v end).

(** *** Records of the tweet stream *)

(** A line the parsing stage drops: not JSON, or a JSON object without
    the key [user]. *)
Definition skippable (r : result HW2.json) : bool :=
  match r with
  | Raise ValueError => true
  | Return (HW2.JDict items) => negb (contains String.eqb items "user")
  | _ => false
  end.

(** The (user id, text) pair of a line that has all three fields. *)
Definition pair_of (r : result HW2.json) : option (HW2.json * HW2.json) :=
  match r with
  | Return (HW2.JDict items) =>
      match lookup String.eqb "user" items with
      | Some (HW2.JDict user) =>
          match lookup String.eqb "id_str" user,
                lookup String.eqb "text" items with
          | Some id_str, Some text => Some (id_str, text)
          | _, _ => None
          end
      | _ => None
      end
  | _ => None
  end.

Definition is_some {A} (o : option A) : bool :=
  match o with Some _ => true | None => false end.

(** A line that is not JSON or lacks one of the required fields: the
    user object, the user's [id_str], or [text]. *)
Definition malformed (r : result HW2.json) : bool :=
  match r with
  | Raise ValueError => true
  | Return (HW2.JDict items) =>
      match lookup String.eqb "user" items with
      | None => true
      | Some (HW2.JDict user) =>
          negb (contains String.eqb user "id_str")
          || negb (contains String.eqb items "text")
      | Some _ => negb (contains String.eqb items "text")
      end
  | _ => false
  end.

(** Sample lines: a truncated line, a limit notice, a tweet, and a
    tweet object without text. *)
Definition q : string := dquote.
Definition line_broken : string := "{" ++ q ++ "user" ++ q ++ ": {".
Definition line_limit : string :=
  "{" ++ q ++ "limit" ++ q ++ ":{" ++ q ++ "track" ++ q ++ ":5}}".
Definition line_tweet : string :=
  "{" ++ q ++ "user" ++ q ++ ":{" ++ q ++ "id_str" ++ q ++ ":" ++ q ++ "42"
      ++ q ++ "}," ++ q ++ "text" ++ q ++ ":" ++ q ++ "hi" ++ q ++ "}".
Definition line_no_text : string :=
  "{" ++ q ++ "user" ++ q ++ ":{" ++ q ++ "id_str" ++ q ++ ":" ++ q ++ "42"
      ++ q ++ "}}".

(** What [ujson.loads] does on the sample lines. *)
Definition sample_loads (raw_json : string) : result HW2.json :=
  if String.eqb raw_json line_limit
  then Return (HW2.JDict [("limit", HW2.JDict [("track", HW2.JInt 5)])])
  else if String.eqb raw_json line_tweet
  then Return (HW2.JDict [("user", HW2.JDict [("id_str", HW2.JStr "42")]);
                          ("text", HW2.JStr "hi")])
  else if String.eqb raw_json line_no_text
  then Return (HW2.JDict [("user", HW2.JDict [("id_str", HW2.JStr "42")])])
  else Raise ValueError.

(** Membership in a token set that may not exist yet. *)
Definition members (o : option (list string)) (t : string) : Prop :=
  match o with Some s => In t s | None => False end.

Definition nodup_opt (o : option (list string)) : Prop :=
  match o with Some s => NoDup s | None => True end.

(** *** Mentions of a token *)

Section Mentions.
Variable tokenize : string -> list string.
Variable mypickle : list (string * Z).
Variable usertweets : list (string * string).

(** The users that have a tweet, each once. *)
Definition users : list string := nodup string_dec (map fst usertweets).

(** Whether token [t] occurs in at least one tweet of user [u]. *)
Definition mentions (u t : string) : bool :=
  existsb (fun x => String.eqb (fst x) u
                    && HW2.mem t (tokenize (snd x))) usertweets.

(** What user [u] adds to the count of token [t] in group [g]. *)
Definition contribution (g : Z) (t u : string) : Z :=
  if (HW2.help4 mypickle u =? g) && mentions u t then 1 else 0.

(** The number of mentions of [t] in group [g]. *)
Definition user_count (g : Z) (t : string) : Z :=
  fold_right Z.add 0 (map (contribution g t) users).

(** What user [u] adds to the count of token [t] over all groups. *)
Definition contribution_all (t u : string) : Z :=
  if mentions u t then 1 else 0.

(** The number of mentions of [t] by all users. *)
Definition total_count (t : string) : Z :=
  fold_right Z.add 0 (map (contribution_all t) users).

(** The record [interresults] holds for a (group, token) count. *)
Definition scored (x : (Z * string) * Z) : Z * (string * R) :=
  (fst (fst x),
   (snd (fst x),
    (ln (1 * IZR (snd x) / IZR (total_count (snd (fst x)))) / ln 2)%R)).
End Mentions.

(** [a] is ranked before [b]: a higher score, or the same score and a
    token that is not greater in lexical order. *)
Definition ranks_before (a b : string * R) : Prop :=
  (snd b < snd a)%R \/ (snd a = snd b /\ String.leb (fst a) (fst b) = true).

(** The counts [tokens] is filtered from: every token with the number
    of token sets it is in. *)
Definition all_counts (tokenize : string -> list string)
           (usertweets : list (string * string)) : list (string * Z) :=
  Spark.reduceByKey String.eqb (fun a b => a + b)
    (map (fun word => (word, 1))
       (Spark.flatMap (fun x => snd x)
          (HW2.inter_usertweets tokenize usertweets))).

(** The token of a record of [interresults]. *)
Definition token_of (x : Z * (string * R)) : string := fst (snd x).

(** The partitions [interresults] holds when no score raises. *)
Definition partitions (tokenize : string -> list string)
           (mypickle : list (string * Z))
           (usertweets : list (string * string))
  : list (list (Z * (string * R))) :=
  Spark.glom_partitionBy 8
    (map (scored tokenize usertweets)
         (HW2.group_counts tokenize mypickle usertweets)).

(** The tokenizer of the pipeline, on text without HTML entities. *)
Definition tok : string -> list string :=
  HW2.Tokenizer.tokenize (fun s => s) false.

(** [n] users, named [0] to [n-1], each with one tweet: [MAGA]. *)
Definition one_tweet_each (n : Z) : list (string * string) :=
  map (fun i => (fmt_d i, "MAGA")) (range n).

(** *** Counting *)

(** The number of occurrences of [k]. *)
Definition count_of (k : string) (l : list string) : Z :=
  Z.of_nat (count_occ string_dec l k).

(** The sum of the counts of the keys that satisfy [P]. *)
Definition total_where {K} (P : K -> bool) (rdd : list (K * Z)) : Z :=
  fold_right Z.add 0 (map snd (filter (fun kv => P (fst kv)) rdd)).

(** The sum of all counts. *)
Definition total {K} (rdd : list (K * Z)) : Z :=
  total_where (fun _ => true) rdd.

(** The number of tweets of the users of group [g]. *)
Definition posts_of (mypickle : list (string * Z))
           (usertweets : list (string * string)) (g : Z) : Z :=
  Z.of_nat (List.length
              (filter (fun x => HW2.help4 mypickle (fst x) =? g) usertweets)).

(** The group ids of the users partition are those of the assignment. *)
Definition groups_0_to_6 (mypickle : list (string * Z)) : bool :=
  forallb (fun kv => (0 <=? snd kv) && (snd kv <=? 6)) mypickle.

(** A line the parsing stage turns into a pair. *)
Definition complete (r : result HW2.json) : bool := is_some (pair_of r).

(** Whether a job outcome is a normal return. *)
Definition returns {A} (r : result A) : bool :=
  match r with Return _ => true | Raise _ => false end.

(** *** Unicode characters *)

(** What [HW1.Unicode.myfilter] appends for one character. *)
Definition normalize_unicode {db : Unicode.database} (ch : N) : N :=
  if Unicode.isdigit ch then ch
  else if Unicode.isalpha ch then Unicode.lower ch
  else Unicode.space.

(** What the proofs use of the Unicode character database.  Its general
    categories are disjoint, so no character is a digit and a letter;
    the lowercase mapping of a letter gives a letter, which is its own
    lowercase form; and the ASCII characters have the classes of the C
    locale. *)
Record database_laws (db : Unicode.database) : Prop := {
  digit_not_alpha :
    forall ch, Unicode.isdigit ch = true -> Unicode.isalpha ch = false;
  lower_alpha :
    forall ch, Unicode.isalpha ch = true ->
               Unicode.isalpha (Unicode.lower ch) = true;
  lower_lower :
    forall ch, Unicode.isalpha ch = true ->
               Unicode.lower (Unicode.lower ch) = Unicode.lower ch;
  ascii_rows :
    forall ch : ascii,
      (N_of_ascii ch < 128)%N ->
      Unicode.isdigit (N_of_ascii ch) = isdigit ch
      /\ Unicode.isalpha (N_of_ascii ch) = isalpha ch
      /\ Unicode.lower (N_of_ascii ch) = N_of_ascii (lower ch)
}.

Definition between (lo hi ch : N) : bool := ((lo <=? ch) && (ch <=? hi))%N.

(** The rows of the database for Latin-1, the code points under 256; in
    this database no other code point is a letter or a digit. *)
Definition latin1_isdigit (ch : N) : bool :=
  between 48 57 ch || between 178 179 ch || (ch =? 185)%N.

Definition latin1_isalpha (ch : N) : bool :=
  between 65 90 ch || between 97 122 ch
  || (ch =? 170)%N || (ch =? 181)%N || (ch =? 186)%N
  || between 192 214 ch || between 216 246 ch || between 248 255 ch.

Definition latin1_lower (ch : N) : N :=
  if between 65 90 ch || between 192 214 ch || between 216 222 ch
  then (ch + 32)%N else ch.

Definition latin1 : Unicode.database :=
  {| Unicode.isdigit := latin1_isdigit;
     Unicode.isalpha := latin1_isalpha;
     Unicode.lower := latin1_lower |}.

(** Text of 7-bit characters. *)
Definition ascii_text (s : string) : bool :=
  forall_chars (fun ch => (N_of_ascii ch <? 128)%N) s.

(** *** Floats *)

Local Open Scope R_scope.

(** What the proofs use of the rounding to the nearest float: it is
    monotone; it leaves a float as it is; the integers up to [2^53] are
    floats; a number under the limit of the conversion rounds to a
    float, of magnitude at most [2^1024]; and a number of magnitude
    [2^-1074], the least positive float, or more does not round to
    zero. *)
Record rounding_laws (round : R -> R) : Prop := {
  round_monotone : forall x y, x <= y -> round x <= round y;
  round_float : forall x, round (round x) = round x;
  round_int : forall n, (Z.abs n <= 2 ^ 53)%Z -> round (IZR n) = IZR n;
  round_range :
    forall x, Rabs x < IZR HW2.float_limit ->
              Rabs (round x) <= IZR (2 ^ 1024);
  round_nonzero : forall x, / IZR (2 ^ 1074) <= Rabs x -> round x <> 0
}.

(** What the proofs use of the logarithm of the C library: its sign on
    the floats up to 1, and at 2. *)
Record log_laws (libm_log : R -> R) : Prop := {
  log_nonpos : forall x, 0 < x <= 1 -> libm_log x <= 0;
  log_two : 0 < libm_log 2
}.

(** Arithmetic that does not round. *)
Definition exact (x : R) : R := x.

(** The score of counts of the same sign in the range of the floats. *)
Definition score (round libm_log : R -> R) (c_k c_all : Z) : R :=
  round (libm_log (round (round (IZR c_k) / round (IZR c_all)))
         / libm_log 2).

Local Close Scope R_scope.

End Spec.

(** ** hw1: the Normalizer *)

Module NormalizerFacts.
Import Py HW1 Spec.

Lemma append_empty_r (s : string) : s ++ "" = s.
Proof. induction s as [|c s IH]; simpl; [reflexivity | now rewrite IH]. Qed.

Lemma append_assoc (a b c : string) : (a ++ b) ++ c = a ++ (b ++ c).
Proof. induction a as [|x a IH]; simpl; [reflexivity | now rewrite IH]. Qed.

Lemma myfilter_step_normalize (res : string) (ch : ascii) :
  myfilter_step res ch = res ++ String (normalize ch) "".
Proof.
  unfold myfilter_step, normalize.
  destruct (isdigit ch); [reflexivity|].
  destruct (isalpha ch); reflexivity.
Qed.

Lemma myfilter_loop_smap (sentence res : string) :
  myfilter_loop res sentence = res ++ smap normalize sentence.
Proof.
  revert res; induction sentence as [|ch rest IH]; intros res; simpl.
  - symmetry; apply append_empty_r.
  - rewrite IH, myfilter_step_normalize, append_assoc. reflexivity.
Qed.

Lemma myfilter_smap (sentence : string) :
  myfilter sentence = smap normalize sentence.
Proof. unfold myfilter. now rewrite myfilter_loop_smap. Qed.

Lemma smap_length f (s : string) : String.length (smap f s) = String.length s.
Proof. induction s; simpl; congruence. Qed.

Lemma smap_get f (s : string) (i : nat) :
  String.get i (smap f s) = option_map f (String.get i s).
Proof.
  revert i; induction s as [|c s IH]; intros [|i]; simpl; auto.
Qed.

Lemma smap_smap f g (s : string) : smap f (smap g s) = smap (fun c => f (g c)) s.
Proof. induction s; simpl; congruence. Qed.

Lemma smap_ext f g (s : string) :
  (forall c, f c = g c) -> smap f s = smap g s.
Proof. intros H; induction s; simpl; [|rewrite H]; congruence. Qed.

Ltac each_char c :=
  destruct c as [[] [] [] [] [] [] [] []]; vm_compute; reflexivity.

Lemma normalize_idempotent (ch : ascii) : normalize (normalize ch) = normalize ch.
Proof. each_char ch. Qed.

Lemma normalize_alpha_first (ch : ascii) :
  normalize ch
  = if isalpha ch then lower ch else if isdigit ch then ch else " "%char.
Proof. each_char ch. Qed.

(** *** [unicode] sentences *)

Import Py.Unicode.

Section Database.
Context {db : database}.

Lemma myfilter_unicode_step (res : unicode) (ch : N) :
  Unicode.myfilter_step res ch = (res ++ [normalize_unicode ch])%list.
Proof.
  unfold Unicode.myfilter_step, normalize_unicode.
  destruct (isdigit ch); [reflexivity|].
  destruct (isalpha ch); reflexivity.
Qed.

Lemma myfilter_unicode_loop (sentence res : unicode) :
  Unicode.myfilter_loop res sentence
  = (res ++ map normalize_unicode sentence)%list.
Proof.
  revert res; induction sentence as [|ch rest IH]; intros res; simpl.
  - now rewrite app_nil_r.
  - rewrite IH, myfilter_unicode_step, <- app_assoc. reflexivity.
Qed.

Lemma myfilter_unicode_map (sentence : unicode) :
  Unicode.myfilter sentence = map normalize_unicode sentence.
Proof. unfold Unicode.myfilter. now rewrite myfilter_unicode_loop. Qed.

Hypothesis laws : database_laws db.

Lemma space_row : isdigit space = false /\ isalpha space = false.
Proof.
  destruct (ascii_rows db laws " "%char) as (Hd & Ha & _);
    [vm_compute; reflexivity|].
  split; [exact Hd | exact Ha].
Qed.

Lemma normalize_unicode_alpha_first (ch : N) :
  normalize_unicode ch
  = if isalpha ch then lower ch else if isdigit ch then ch else space.
Proof.
  unfold normalize_unicode.
  destruct (isdigit ch) eqn:Ed; [|reflexivity].
  now rewrite (digit_not_alpha db laws ch Ed).
Qed.

Lemma normalize_unicode_idempotent (ch : N) :
  normalize_unicode (normalize_unicode ch) = normalize_unicode ch.
Proof.
  destruct space_row as [Hsd Hsa].
  assert (Hcase : (isdigit ch = true /\ normalize_unicode ch = ch)
                  \/ (isalpha ch = true /\ normalize_unicode ch = lower ch)
                  \/ normalize_unicode ch = space).
  { unfold normalize_unicode.
    destruct (isdigit ch); [now left|].
    destruct (isalpha ch); [now right; left | now right; right]. }
  destruct Hcase as [[Ed ->]|[[Ea ->]| ->]]; unfold normalize_unicode.
  - now rewrite Ed.
  - destruct (isdigit (lower ch)); [reflexivity|].
    rewrite (lower_alpha db laws ch Ea).
    apply (lower_lower db laws ch Ea).
  - now rewrite Hsd, Hsa.
Qed.

(** A character of a normalized string: a digit, a letter that is its
    own lowercase form, or the space. *)
Lemma normalize_unicode_normal (ch : N) :
  isdigit (normalize_unicode ch) = true
  \/ (isalpha (normalize_unicode ch) = true
      /\ lower (normalize_unicode ch) = normalize_unicode ch)
  \/ normalize_unicode ch = space.
Proof.
  unfold normalize_unicode.
  destruct (isdigit ch) eqn:Ed; [now left|].
  destruct (isalpha ch) eqn:Ea; [|now right; right].
  right; left. split.
  - apply (lower_alpha db laws ch Ea).
  - apply (lower_lower db laws ch Ea).
Qed.

Lemma normalize_ascii_row (ch : ascii) :
  (N_of_ascii ch < 128)%N ->
  normalize_unicode (N_of_ascii ch) = N_of_ascii (normalize ch).
Proof.
  intros H. destruct (ascii_rows db laws ch H) as (Hd & Ha & Hl).
  unfold normalize_unicode, normalize. rewrite Hd, Ha, Hl.
  destruct (Py.isdigit ch); [reflexivity|].
  destruct (Py.isalpha ch); reflexivity.
Qed.

(** On ASCII text the two models of [myfilter] agree. *)
Lemma myfilter_decode (s : string) :
  ascii_text s = true ->
  Unicode.myfilter (decode s) = decode (HW1.myfilter s).
Proof.
  intros H. rewrite myfilter_unicode_map, myfilter_smap.
  unfold decode. induction s as [|ch s IH]; simpl; [reflexivity|].
  unfold ascii_text in H. simpl in H. apply andb_true_iff in H.
  destruct H as [Hch Hs]. apply N.ltb_lt in Hch.
  rewrite normalize_ascii_row by exact Hch. f_equal. now apply IH.
Qed.

End Database.

Lemma between_above (lo hi ch : N) :
  (hi < ch)%N -> between lo hi ch = false.
Proof.
  intros H. unfold between.
  destruct (N.leb_spec ch hi); [lia|]. apply andb_false_r.
Qed.

Lemma eqb_above (n ch : N) : (n < ch)%N -> (ch =? n)%N = false.
Proof. intros H. apply N.eqb_neq. lia. Qed.

(** The rows of a code point over 255. *)
Lemma latin1_above (ch : N) :
  (256 <= ch)%N ->
  latin1_isdigit ch = false /\ latin1_isalpha ch = false
  /\ latin1_lower ch = ch.
Proof.
  intros H. unfold latin1_isdigit, latin1_isalpha, latin1_lower.
  rewrite !between_above, !eqb_above by lia. repeat split.
Qed.

Lemma latin1_code (ch : N) :
  (ch < 256)%N -> exists a : ascii, ch = N_of_ascii a.
Proof.
  intros H. exists (ascii_of_N ch). symmetry.
  now apply N_ascii_embedding.
Qed.

Ltac latin1_rows ch :=
  let H := fresh in
  destruct (N.lt_ge_cases ch 256) as [H|H];
  [ apply latin1_code in H; destruct H as [? ->];
    match goal with
    | |- context [N_of_ascii ?a] =>
        destruct a as [[] [] [] [] [] [] [] []]; vm_compute;
        first [ reflexivity | discriminate
              | intros; first [reflexivity | discriminate] ]
    end
  | destruct (latin1_above ch H) as (? & ? & ?) ].

Lemma latin1_laws : database_laws latin1.
Proof.
  constructor; cbn [isdigit isalpha lower latin1].
  - intros ch. latin1_rows ch. congruence.
  - intros ch. latin1_rows ch. congruence.
  - intros ch. latin1_rows ch. congruence.
  - intros ch.
    destruct ch as [[] [] [] [] [] [] [] []]; vm_compute;
      intros H; first [discriminate H | repeat split].
Qed.

(** C7. [myfilter] is total and works character by character, on a
    [unicode] sentence and on a [str] alike: the result has the length
    of the input, its i-th character is the lowercase form of the i-th
    input character when that is a letter, the character itself when it
    is a digit, and one space otherwise (so runs of other characters
    become runs of spaces).  On [unicode] the letters and digits are
    those of the character database, non-ASCII ones included, and every
    character of the result is a digit, a letter that is its own
    lowercase form, or a space; on [str] they are those of the C locale.
    The empty string and the sample sentence are mapped as the
    specification says. *)
Theorem myfilter_characterwise (db : database) :
  database_laws db ->
  (forall sentence : unicode,
      List.length (Unicode.myfilter sentence) = List.length sentence
      /\ (forall i : nat,
             nth_error (Unicode.myfilter sentence) i
             = option_map (fun ch => if isalpha ch then lower ch
                                     else if isdigit ch then ch
                                     else space)
                          (nth_error sentence i))
      /\ Forall (fun ch => isdigit ch = true
                           \/ (isalpha ch = true /\ lower ch = ch)
                           \/ ch = space)
                (Unicode.myfilter sentence))
  /\ Unicode.myfilter [] = []
  /\ Unicode.myfilter (decode "To know you is to love you.")
     = decode "to know you is to love you "
  /\ (forall sentence : string,
         String.length (HW1.myfilter sentence) = String.length sentence
         /\ (forall i : nat,
                String.get i (HW1.myfilter sentence)
                = option_map (fun ch => if Py.isalpha ch then Py.lower ch
                                        else if Py.isdigit ch then ch
                                        else " "%char)
                             (String.get i sentence)))
  /\ HW1.myfilter "" = ""
  /\ HW1.myfilter "To know you is to love you."
     = "to know you is to love you ".
Proof.
  intros laws. split; [|split; [|split; [|split; [|split]]]].
  - intros sentence. rewrite myfilter_unicode_map. split; [|split].
    + apply length_map.
    + intros i. rewrite nth_error_map.
      destruct (nth_error sentence i) as [ch|]; [|reflexivity].
      simpl. now rewrite (normalize_unicode_alpha_first laws).
    + apply Forall_map, Forall_forall. intros ch _.
      apply (normalize_unicode_normal laws).
  - reflexivity.
  - rewrite (myfilter_decode laws) by reflexivity. reflexivity.
  - intros sentence. rewrite myfilter_smap. split.
    + apply smap_length.
    + intros i. rewrite smap_get.
      destruct (String.get i sentence) as [ch|]; simpl; [|reflexivity].
      now rewrite normalize_alpha_first.
  - reflexivity.
  - reflexivity.
Qed.

(** With the Latin-1 rows: a capital E with acute accent is lower-cased,
    the digit and the superscript two are kept, the division sign
    becomes a space. *)
Lemma myfilter_characterwise_witness :
  database_laws latin1
  /\ Unicode.myfilter (db := latin1) [201; 50; 178; 247]%N
     = [233; 50; 178; 32]%N.
Proof.
  split; [exact latin1_laws|].
  destruct (myfilter_characterwise latin1 latin1_laws)
    as (H & _).
  destruct (H [201; 50; 178; 247]%N) as (_ & Hi & _).
  apply nth_error_ext. intros i. rewrite Hi.
  do 5 (destruct i as [|i]; [reflexivity|]). reflexivity.
Defined.

(** C9. Normalizing a normalized string changes nothing, on a [unicode]
    sentence and on a [str]. *)
Theorem myfilter_idempotent (db : database) :
  database_laws db ->
  (forall s : unicode,
      Unicode.myfilter (Unicode.myfilter s) = Unicode.myfilter s)
  /\ (forall s : string, HW1.myfilter (HW1.myfilter s) = HW1.myfilter s).
Proof.
  intros laws. split; intros s.
  - rewrite !myfilter_unicode_map, map_map.
    apply map_ext. intros ch. apply (normalize_unicode_idempotent laws).
  - rewrite !myfilter_smap, smap_smap.
    apply smap_ext, normalize_idempotent.
Qed.

(** With the Latin-1 rows: the sentence of the witness of C7, normalized
    twice. *)
Lemma myfilter_idempotent_witness :
  database_laws latin1
  /\ Unicode.myfilter (db := latin1)
       (Unicode.myfilter (db := latin1) [201; 50; 178; 247]%N)
     = [233; 50; 178; 32]%N.
Proof.
  split; [exact latin1_laws|].
  rewrite (proj1 (myfilter_idempotent latin1 latin1_laws) _).
  reflexivity.
Defined.

End NormalizerFacts.

(** ** hw1: the n-gram extractor *)

Module ExtractorFacts.
Import Py HW1 Spec.

Lemma fold_left_append {A B} (g : A -> B) (l : list A) (acc : list B) :
  fold_left (fun res i => (res ++ [g i])%list) l acc = (acc ++ map g l)%list.
Proof.
  revert acc; induction l as [|x l IH]; intros acc; simpl.
  - now rewrite app_nil_r.
  - rewrite IH, <- app_assoc. reflexivity.
Qed.

Lemma slice_window {A} (l : list A) (i : nat) (n : Z) :
  0 <= n -> Z.of_nat i + n <= Z.of_nat (List.length l) ->
  slice l (Z.of_nat i) (Z.of_nat i + n) = firstn (Z.to_nat n) (skipn i l).
Proof.
  intros Hn Hle. unfold slice, adjust.
  destruct (Z.ltb_spec (Z.of_nat i) 0); [lia|].
  destruct (Z.ltb_spec (Z.of_nat i + n) 0); [lia|].
  rewrite !Z.min_l by lia. rewrite Nat2Z.id. f_equal. lia.
Qed.

Lemma mysplit_map (sentence : string) (n : Z) :
  1 <= n ->
  mysplit sentence n
  = map (fun i => join " " (window (split sentence) n i))
        (seq 0 (Z.to_nat (Z.of_nat (List.length (split sentence)) - n + 1))).
Proof.
  intros Hn. unfold mysplit, range.
  rewrite fold_left_append, map_map. simpl.
  apply map_ext_in. intros i Hi. apply in_seq in Hi.
  unfold window. rewrite slice_window by lia. reflexivity.
Qed.

Lemma is_word_snoc (w : string) (ch : ascii) :
  isspace ch = false -> w = "" \/ is_word w = true ->
  is_word (w ++ String ch "") = true.
Proof.
  intros Hch Hw. unfold is_word. apply andb_true_iff. split.
  - destruct w; reflexivity.
  - assert (Hall : forall_chars (fun c => negb (isspace c)) w = true).
    { destruct Hw as [->|Hw]; [reflexivity|].
      unfold is_word in Hw. apply andb_true_iff in Hw. tauto. }
    clear Hw. induction w as [|c w IH]; simpl in *.
    + now rewrite Hch.
    + apply andb_true_iff in Hall. destruct Hall as [Hc Hall].
      rewrite Hc. simpl. auto.
Qed.

Lemma split_from_words (s w : string) :
  w = "" \/ is_word w = true -> forallb is_word (split_from w s) = true.
Proof.
  revert w; induction s as [|ch s IH]; intros w Hw; simpl.
  - destruct (String.eqb_spec w ""); [reflexivity|].
    simpl. destruct Hw as [Hw|Hw]; [contradiction|]. now rewrite Hw.
  - destruct (isspace ch) eqn:Hch.
    + destruct (String.eqb_spec w "").
      * apply IH. now left.
      * simpl. destruct Hw as [Hw|Hw]; [contradiction|].
        rewrite Hw. simpl. apply IH. now left.
    + apply IH. right. now apply is_word_snoc.
Qed.

(** C8. For an order [n >= 1], with [words] the whitespace-separated
    words of the segment and [w] their number: every word is non-empty
    and free of whitespace; [mysplit] returns, from left to right, the
    windows of [n] consecutive words joined by single spaces, one for
    each start position [0 .. w-n]; that is exactly [max(0, w-n+1)]
    entries, each made of [n] words; a segment of fewer than [n] words
    gives the empty list. *)
Theorem mysplit_windows (sentence : string) (n : Z) :
  1 <= n ->
  let words := split sentence in
  let w := Z.of_nat (List.length words) in
  forallb is_word words = true
  /\ mysplit sentence n
     = map (fun i => join " " (window words n i))
           (seq 0 (Z.to_nat (Z.max 0 (w - n + 1))))
  /\ Z.of_nat (List.length (mysplit sentence n)) = Z.max 0 (w - n + 1)
  /\ Forall (fun i => List.length (window words n i) = Z.to_nat n)
            (seq 0 (List.length (mysplit sentence n)))
  /\ (w < n -> mysplit sentence n = []).
Proof.
  intros Hn words w.
  assert (Hmap := mysplit_map sentence n Hn). fold words w in Hmap.
  assert (Hlen : List.length (mysplit sentence n) = Z.to_nat (w - n + 1)).
  { now rewrite Hmap, length_map, length_seq. }
  repeat split.
  - apply split_from_words. now left.
  - rewrite Hmap. do 2 f_equal. lia.
  - rewrite Hlen. lia.
  - rewrite Hlen. apply Forall_forall. intros i Hi. apply in_seq in Hi.
    unfold window. rewrite length_firstn, length_skipn. fold words. lia.
  - intros Hw. apply length_zero_iff_nil. rewrite Hlen. lia.
Qed.

Lemma mysplit_windows_witness :
  1 <= 2
  /\ mysplit "to know you is to love you " 2
     = ["to know"; "know you"; "you is"; "is to"; "to love"; "love you"].
Proof.
  split; [lia|].
  destruct (mysplit_windows "to know you is to love you " 2 ltac:(lia))
    as (_ & H & _).
  rewrite H. reflexivity.
Defined.

End ExtractorFacts.

(** ** Spark transformations *)

Module SparkFacts.
Import Py Spark Spec.

Section ByKey.
Context {K V : Type} (eqb : K -> K -> bool).
Hypothesis eqb_spec : forall a b, reflect (a = b) (eqb a b).

Lemma eqb_refl (a : K) : eqb a a = true.
Proof. destruct (eqb_spec a a); congruence. Qed.

Lemma lookup_In (k : K) (v : V) (d : list (K * V)) :
  lookup eqb k d = Some v -> In (k, v) d.
Proof.
  induction d as [|[k' v'] d IH]; simpl; [discriminate|].
  destruct (eqb_spec k k') as [->|]; intros H.
  - left. congruence.
  - right. auto.
Qed.

Lemma lookup_None (k : K) (d : list (K * V)) :
  lookup eqb k d = None <-> ~ In k (map fst d).
Proof.
  induction d as [|[k' v'] d IH]; simpl; [tauto|].
  destruct (eqb_spec k k') as [->|Hne].
  - split; [discriminate | tauto].
  - rewrite IH. split; [intros H [E|E]; [congruence | tauto] | tauto].
Qed.

Lemma In_lookup (k : K) (v : V) (d : list (K * V)) :
  NoDup (map fst d) -> In (k, v) d -> lookup eqb k d = Some v.
Proof.
  induction d as [|[k' v'] d IH]; simpl; [tauto|].
  intros Hnd [E|Hin]; inversion Hnd as [|? ? Hnotin Hnd']; subst.
  - inversion E; subst. now rewrite eqb_refl.
  - destruct (eqb_spec k k') as [->|]; [|auto].
    exfalso. apply Hnotin. apply in_map_iff. now exists (k', v).
Qed.

Lemma contains_In (k : K) (d : list (K * V)) :
  contains eqb d k = true <-> In k (map fst d).
Proof.
  unfold contains.
  destruct (lookup eqb k d) as [v|] eqn:E.
  - split; [intros _ | reflexivity].
    apply lookup_In in E. apply in_map_iff. now exists (k, v).
  - apply lookup_None in E. split; [discriminate | tauto].
Qed.

Variable f : V -> V -> V.

Lemma lookup_merge_value (k' k : K) (v : V) (acc : list (K * V)) :
  lookup eqb k' (merge_value eqb f k v acc)
  = if eqb k' k then combine f (lookup eqb k acc) v
    else lookup eqb k' acc.
Proof.
  unfold combine.
  induction acc as [|[k0 v0] acc IH]; simpl.
  - destruct (eqb k' k); reflexivity.
  - destruct (eqb_spec k k0) as [->|Hne]; simpl.
    + destruct (eqb_spec k' k0); reflexivity.
    + rewrite IH.
      destruct (eqb_spec k' k) as [->|]; [|reflexivity].
      destruct (eqb_spec k k0); [contradiction | reflexivity].
Qed.

Lemma keys_merge_value (k : K) (v : V) (acc : list (K * V)) :
  map fst (merge_value eqb f k v acc)
  = if existsb (eqb k) (map fst acc) then map fst acc
    else (map fst acc ++ [k])%list.
Proof.
  induction acc as [|[k0 v0] acc IH]; simpl; [reflexivity|].
  destruct (eqb k k0); simpl; [reflexivity|].
  rewrite IH. destruct (existsb (eqb k) (map fst acc)); reflexivity.
Qed.

Lemma NoDup_merge_value (k : K) (v : V) (acc : list (K * V)) :
  NoDup (map fst acc) -> NoDup (map fst (merge_value eqb f k v acc)).
Proof.
  intros Hnd. rewrite keys_merge_value.
  destruct (existsb (eqb k) (map fst acc)) eqn:E; [assumption|].
  apply NoDup_app; [assumption | repeat constructor; simpl; tauto |].
  intros x Hx [Hk|[]]. subst x.
  assert (existsb (eqb k) (map fst acc) = true); [|congruence].
  apply existsb_exists. exists k. split; [assumption | apply eqb_refl].
Qed.

Lemma lookup_fold (k : K) (rdd acc : list (K * V)) :
  lookup eqb k
    (fold_left (fun a kv => merge_value eqb f (fst kv) (snd kv) a) rdd acc)
  = fold_left (combine f) (values_of eqb k rdd) (lookup eqb k acc).
Proof.
  revert acc; induction rdd as [|[k0 v0] rdd IH]; intros acc; simpl.
  - reflexivity.
  - rewrite IH, lookup_merge_value. unfold values_of. simpl.
    destruct (eqb_spec k k0) as [->|]; reflexivity.
Qed.

Lemma NoDup_fold (rdd acc : list (K * V)) :
  NoDup (map fst acc) ->
  NoDup (map fst (fold_left
                    (fun a kv => merge_value eqb f (fst kv) (snd kv) a)
                    rdd acc)).
Proof.
  revert acc; induction rdd as [|kv rdd IH]; intros acc H; simpl; auto.
  apply IH, NoDup_merge_value, H.
Qed.

(** The value of a key after [reduceByKey] is the fold of the values
    the key has in the RDD. *)
Lemma lookup_reduceByKey (k : K) (rdd : list (K * V)) :
  lookup eqb k (reduceByKey eqb f rdd)
  = fold_left (combine f) (values_of eqb k rdd) None.
Proof. unfold reduceByKey. now rewrite lookup_fold. Qed.

Lemma NoDup_reduceByKey (rdd : list (K * V)) :
  NoDup (map fst (reduceByKey eqb f rdd)).
Proof. apply NoDup_fold. constructor. Qed.

Lemma fold_combine_Some (vs : list V) (o : option V) :
  vs <> [] -> exists v, fold_left (combine f) vs o = Some v.
Proof.
  revert o; induction vs as [|v vs IH]; intros o H; [contradiction|].
  simpl. destruct vs as [|v' vs]; [simpl; unfold combine; eauto|].
  apply IH. discriminate.
Qed.

Lemma keys_reduceByKey (k : K) (rdd : list (K * V)) :
  In k (map fst (reduceByKey eqb f rdd)) <-> In k (map fst rdd).
Proof.
  rewrite <- contains_In. unfold contains.
  rewrite lookup_reduceByKey. split.
  - destruct (values_of eqb k rdd) as [|v vs] eqn:E;
      [discriminate|]. intros _.
    assert (Hin : In v (values_of eqb k rdd)) by (rewrite E; now left).
    unfold values_of in Hin. apply in_map_iff in Hin.
    destruct Hin as ([k0 v0] & _ & Hin). apply filter_In in Hin.
    destruct Hin as [Hin Hk]. simpl in Hk.
    destruct (eqb_spec k k0); [subst | discriminate].
    apply in_map_iff. now exists (k0, v0).
  - intros Hin. apply in_map_iff in Hin. destruct Hin as ([k0 v0] & <- & Hin).
    destruct (fold_combine_Some (values_of eqb k0 rdd) None) as [v Hv].
    + unfold values_of. intros E.
      assert (Hf : In (k0, v0) (filter (fun kv => eqb k0 (fst kv)) rdd)).
      { apply filter_In. split; [assumption | apply eqb_refl]. }
      apply (in_map snd) in Hf. simpl in Hf, E. rewrite E in Hf. exact Hf.
    + simpl. now rewrite Hv.
Qed.
End ByKey.

Section Sorting.
Context {A K : Type} (key : A -> K) (leb : K -> K -> bool).

Lemma insert_by_perm (x : A) (l : list A) :
  Permutation (insert_by key leb x l) (x :: l).
Proof.
  induction l as [|y l IH]; simpl; [reflexivity|].
  destruct (leb (key x) (key y)); [reflexivity|].
  rewrite IH. apply perm_swap.
Qed.

Lemma sortBy_perm (l : list A) : Permutation (sortBy key leb l) l.
Proof.
  induction l as [|x l IH]; simpl; [reflexivity|].
  rewrite insert_by_perm. now constructor.
Qed.

Hypothesis leb_total : forall a b, leb a b = true \/ leb b a = true.
Hypothesis leb_trans :
  forall a b c, leb a b = true -> leb b c = true -> leb a c = true.

Let le (a b : A) : Prop := leb (key a) (key b) = true.

Lemma insert_by_sorted (x : A) (l : list A) :
  StronglySorted le l -> StronglySorted le (insert_by key leb x l).
Proof.
  induction 1 as [|y l Hs IH Hall]; simpl.
  - repeat constructor.
  - destruct (leb (key x) (key y)) eqn:E.
    + constructor; [now constructor|].
      constructor; [exact E|].
      eapply Forall_impl; [|exact Hall].
      intros z Hz. unfold le in *. eapply leb_trans; eassumption.
    + constructor; [assumption|].
      eapply Permutation_Forall; [symmetry; apply insert_by_perm|].
      constructor; [|assumption].
      unfold le. destruct (leb_total (key x) (key y)); congruence.
Qed.

Lemma sortBy_sorted (l : list A) : StronglySorted le (sortBy key leb l).
Proof.
  induction l as [|x l IH]; simpl; [constructor|].
  now apply insert_by_sorted.
Qed.
End Sorting.

End SparkFacts.

(** ** hw1: counting and printing *)

Module PrintFacts.
Import Py HW1 Spec SparkFacts.

(** The sorted RDD has one record per distinct n-gram. *)
Lemma freq_ngramRDD_length (sentences : list string) (n : Z) :
  List.length (freq_ngramRDD sentences n)
  = List.length (nodup string_dec (ngrams sentences n)).
Proof.
  unfold freq_ngramRDD, Spark.flatMap. fold (ngrams sentences n).
  rewrite (Permutation_length (sortBy_perm _ _ _)).
  rewrite <- (length_map fst).
  apply Permutation_length, NoDup_Permutation.
  - apply NoDup_reduceByKey, String.eqb_spec.
  - apply NoDup_nodup.
  - intros k. rewrite nodup_In, keys_reduceByKey by apply String.eqb_spec.
    rewrite map_map. simpl. now rewrite map_id.
Qed.

(** C10. [printOutput] returns normally exactly when the RDD holds at
    least 5 records, and raises [IndexError] otherwise, after the two
    header lines and one line for each record there is; the RDD built
    by the loop holds one record per distinct n-gram; the 5-grams of
    the sample sentence are 3, and printing them raises. *)
Theorem printOutput_needs_five (n : Z) (rdd : list (string * Z))
        (out : list string) :
  snd (printOutput n rdd out)
  = (if (5 <=? List.length rdd)%nat then Return tt else Raise IndexError)
  /\ List.length (fst (printOutput n rdd out))
     = (List.length out + 2 + Nat.min 5 (List.length rdd))%nat
  /\ (forall sentences,
        List.length (freq_ngramRDD sentences n)
        = List.length (nodup string_dec (ngrams sentences n)))
  /\ List.length (freq_ngramRDD ["To know you is to love you."] 5) = 3%nat
  /\ snd (printOutput 5 (freq_ngramRDD ["To know you is to love you."] 5) [])
     = Raise IndexError.
Proof.
  split; [|split; [|split; [|split]]].
  - destruct rdd as [|a [|b [|c [|d [|e rest]]]]]; reflexivity.
  - destruct rdd as [|a [|b [|c [|d [|e rest]]]]];
      unfold printOutput, io_bind, print, lift; simpl;
      rewrite ?length_app; simpl; lia.
  - intros sentences. apply freq_ngramRDD_length.
  - vm_compute. reflexivity.
  - vm_compute. reflexivity.
Qed.

End PrintFacts.

(** ** hw2: parsing the tweet stream *)

Module ParseFacts.
Import Py HW2 Spec SparkFacts.

Section Parse.
Variable ujson_loads : string -> result json.

Lemma mem_contains (k : string) (items : list (string * json)) :
  mem k (map fst items) = contains String.eqb items k.
Proof.
  unfold contains.
  induction items as [|[k' v] items IH]; simpl; [reflexivity|].
  destruct (String.eqb k k'); simpl; [reflexivity | exact IH].
Qed.

(** A skippable line contributes nothing. *)
Lemma safe_parse_skippable (x : string) :
  skippable (ujson_loads x) = true -> safe_parse ujson_loads x = Return [].
Proof.
  unfold skippable, safe_parse.
  destruct (ujson_loads x) as [[]|[]]; try discriminate; simpl; auto.
  rewrite mem_contains. intros ->. reflexivity.
Qed.

(** A line with all three fields contributes its pair. *)
Lemma safe_parse_complete (x : string) (p : json * json) :
  pair_of (ujson_loads x) = Some p ->
  (objs <- safe_parse ujson_loads x ;; mapM user_text objs)%py
  = Return [p].
Proof.
  unfold pair_of, safe_parse.
  destruct (ujson_loads x) as [[]|]; try discriminate.
  destruct (lookup String.eqb "user" items) as [[]|] eqn:Hu;
    try discriminate.
  rename items0 into user.
  destruct (lookup String.eqb "id_str" user) as [id_str|] eqn:Hi;
    [|discriminate].
  destruct (lookup String.eqb "text" items) as [text|] eqn:Ht;
    [|discriminate].
  intros [= <-]. simpl. rewrite mem_contains. unfold contains.
  rewrite Hu. simpl. unfold user_text, subscript, dict_getitem. simpl.
  rewrite Hu. simpl. rewrite Hi. simpl. rewrite Ht. reflexivity.
Qed.

Lemma pair_of_skippable (x : string) :
  skippable (ujson_loads x) = true -> pair_of (ujson_loads x) = None.
Proof.
  unfold skippable, pair_of, contains.
  destruct (ujson_loads x) as [[]|]; try reflexivity.
  destruct (lookup String.eqb "user" items); [discriminate | reflexivity].
Qed.

(** C5, amended. When every line is either skippable (not JSON, or a
    JSON object without [user]) or has all three fields, the parsing
    stage returns normally; the result is the pairs of the lines that
    have all fields, in order, so the skippable lines are absent and
    the result is what the other lines alone give. *)
Theorem usertweets_skips (contents : list string) :
  forallb (fun x => skippable (ujson_loads x)
                    || is_some (pair_of (ujson_loads x))) contents = true ->
  usertweets ujson_loads contents
  = Return (flat_map (fun x => match pair_of (ujson_loads x) with
                               | Some p => [p]
                               | None => []
                               end) contents)
  /\ usertweets ujson_loads contents
     = usertweets ujson_loads
         (filter (fun x => negb (skippable (ujson_loads x))) contents).
Proof.
  induction contents as [|x rest IH]; intros H; [split; reflexivity|].
  simpl in H. apply andb_true_iff in H. destruct H as [Hx Hrest].
  destruct (IH Hrest) as [IH1 IH2]. clear IH.
  destruct (skippable (ujson_loads x)) eqn:Hs.
  - simpl. rewrite Hs. simpl.
    rewrite (safe_parse_skippable x Hs), (pair_of_skippable x Hs).
    simpl. rewrite <- IH2, IH1. split; reflexivity.
  - simpl in Hx. destruct (pair_of (ujson_loads x)) as [p|] eqn:Hp;
      [|discriminate].
    assert (Hc := safe_parse_complete x p Hp).
    simpl. rewrite Hs. simpl. rewrite Hp.
    destruct (safe_parse ujson_loads x) as [objs|e]; [|discriminate].
    simpl in Hc |- *. rewrite Hc. simpl. rewrite <- IH2, IH1.
    split; reflexivity.
Qed.
End Parse.

Lemma usertweets_skips_witness :
  forallb (fun x => skippable (sample_loads x)
                    || is_some (pair_of (sample_loads x)))
          [line_broken; line_limit; line_tweet] = true
  /\ usertweets sample_loads [line_broken; line_limit; line_tweet]
     = Return [(JStr "42", JStr "hi")].
Proof.
  split; [reflexivity|].
  destruct (usertweets_skips sample_loads
              [line_broken; line_limit; line_tweet] eq_refl) as [H _].
  rewrite H. reflexivity.
Defined.

(** C5 as stated fails: a JSON object with a user but no text is a
    record with a missing required field, and it is not discarded: the
    job raises [KeyError]. *)
Lemma usertweets_missing_text_raises :
  ~ (forall (ujson_loads : string -> result json) (contents : list string),
       forallb (fun x => malformed (ujson_loads x)) contents = true ->
       usertweets ujson_loads contents = Return [])
  /\ malformed (sample_loads line_no_text) = true
  /\ usertweets sample_loads [line_no_text] = Raise KeyError.
Proof.
  split; [|split; reflexivity].
  intros H. specialize (H sample_loads [line_no_text] eq_refl).
  discriminate H.
Qed.

End ParseFacts.

(** ** hw2: the relative popularity of a token *)

Module PopularityFacts.
Import Py HW2.
Local Open Scope R_scope.

Lemma ln_2_pos : 0 < ln 2.
Proof. rewrite <- ln_1. apply ln_increasing; lra. Qed.

Lemma log_exact_pos (x : R) : 0 < x -> log_exact x = Return (ln x).
Proof.
  intros H. unfold log_exact. destruct (Rle_dec x 0); [lra | reflexivity].
Qed.

Lemma truediv_exact_nonzero (a b : R) :
  b <> 0 -> truediv_exact a b = Return (a / b).
Proof.
  intros H. unfold truediv_exact.
  destruct (Req_dec_T b 0); [contradiction|]. reflexivity.
Qed.

(** With positive counts the function returns, and returns the quotient
    of logarithms. *)
Lemma get_rel_popularity_exact_returns (c_k c_all : Z) :
  (1 <= c_k)%Z -> (1 <= c_all)%Z ->
  get_rel_popularity_exact c_k c_all
  = Return (ln (1 * IZR c_k / IZR c_all) / ln 2).
Proof.
  intros Hk Hall.
  assert (0 < IZR c_k) by (apply IZR_lt; lia).
  assert (0 < IZR c_all) by (apply IZR_lt; lia).
  unfold get_rel_popularity_exact.
  rewrite truediv_exact_nonzero by lra. simpl.
  rewrite log_exact_pos.
  2:{ apply Rdiv_lt_0_compat; lra. }
  simpl. rewrite log_exact_pos by lra. simpl.
  apply truediv_exact_nonzero. pose proof ln_2_pos. lra.
Qed.

End PopularityFacts.

(** ** hw2: the relative popularity in floats *)

Module FloatFacts.
Import Py HW2 Spec.
Local Open Scope R_scope.

Lemma float_of_int_in_range round (n : Z) :
  (Z.abs n < float_limit)%Z -> float_of_int round n = Return (round (IZR n)).
Proof.
  intros H. unfold float_of_int.
  destruct (Z.leb_spec float_limit (Z.abs n)); [lia | reflexivity].
Qed.

Lemma float_of_int_overflow round (n : Z) :
  (float_limit <= Z.abs n)%Z -> float_of_int round n = Raise OverflowError.
Proof.
  intros H. unfold float_of_int.
  destruct (Z.leb_spec float_limit (Z.abs n)); [reflexivity | lia].
Qed.

Lemma float_div_nonzero round (a b : R) :
  b <> 0 -> float_div round a b = Return (round (a / b)).
Proof.
  intros H. unfold float_div. destruct (Req_dec_T b 0); [contradiction|].
  reflexivity.
Qed.

Lemma float_div_zero round (a : R) :
  float_div round a 0 = Raise ZeroDivisionError.
Proof.
  unfold float_div. destruct (Req_dec_T 0 0); [reflexivity | contradiction].
Qed.

Lemma log_positive libm_log (x : R) :
  0 < x -> log libm_log x = Return (libm_log x).
Proof. intros H. unfold log. destruct (Rle_dec x 0); [lra | reflexivity]. Qed.

Lemma log_domain libm_log (x : R) :
  x <= 0 -> log libm_log x = Raise ValueError.
Proof. intros H. unfold log. destruct (Rle_dec x 0); [reflexivity | lra]. Qed.

Lemma huge_pos : 0 < IZR (2 ^ 1024).
Proof. apply IZR_lt. vm_compute. reflexivity. Qed.

Lemma tiny_le_huge_inv : / IZR (2 ^ 1074) <= / IZR (2 ^ 1024).
Proof.
  apply Rinv_le_contravar; [apply huge_pos|].
  apply IZR_le. vm_compute. discriminate.
Qed.

Section Laws.
Variable round : R -> R.
Variable libm_log : R -> R.
Hypothesis rounding : rounding_laws round.
Hypothesis logarithm : log_laws libm_log.

Lemma round_0 : round 0 = 0.
Proof. apply (round_int round rounding 0). vm_compute. discriminate. Qed.

Lemma round_1 : round 1 = 1.
Proof. apply (round_int round rounding 1). vm_compute. discriminate. Qed.

Lemma round_2 : round 2 = 2.
Proof. apply (round_int round rounding 2). vm_compute. discriminate. Qed.

Lemma round_m1 : round (-1) = -1.
Proof. apply (round_int round rounding (-1)). vm_compute. discriminate. Qed.

(** The float of a count in range: at least 1 and at most [2^1024]. *)
Lemma round_count (n : Z) :
  (1 <= n < float_limit)%Z -> 1 <= round (IZR n) <= IZR (2 ^ 1024).
Proof.
  intros [H1 H2]. split.
  - rewrite <- round_1. apply (round_monotone round rounding).
    apply IZR_le. exact H1.
  - eapply Rle_trans; [apply Rle_abs|].
    apply (round_range round rounding).
    rewrite Rabs_pos_eq by (apply IZR_le; lia).
    apply IZR_lt. exact H2.
Qed.

Lemma round_neg_count (n : Z) :
  (- float_limit < n <= -1)%Z -> - IZR (2 ^ 1024) <= round (IZR n) <= -1.
Proof.
  intros [H1 H2]. split.
  - assert (H : Rabs (round (IZR n)) <= IZR (2 ^ 1024)).
    { apply (round_range round rounding).
      rewrite Rabs_left1 by (apply IZR_le; lia).
      rewrite <- opp_IZR. apply IZR_lt. lia. }
    pose proof (Rle_abs (- round (IZR n))) as H'.
    rewrite Rabs_Ropp in H'. lra.
  - rewrite <- round_m1. apply (round_monotone round rounding).
    apply IZR_le. exact H2.
Qed.

(** A quotient of floats of magnitude between 1 and [2^1024] does not
    round to zero. *)
Lemma round_ratio_pos (a b : R) :
  1 <= a -> 0 < b <= IZR (2 ^ 1024) -> 0 < round (a / b).
Proof.
  intros Ha [Hb Hb'].
  pose proof huge_pos as Hh. pose proof tiny_le_huge_inv as Ht.
  assert (Hq : / IZR (2 ^ 1024) <= a / b).
  { assert (Hi : / IZR (2 ^ 1024) <= / b)
      by (apply Rinv_le_contravar; assumption).
    assert (Hi0 : 0 < / IZR (2 ^ 1024)) by (apply Rinv_0_lt_compat; exact Hh).
    unfold Rdiv. revert Hi Hi0.
    generalize (/ IZR (2 ^ 1024)) (/ b). intros u v Hi Hi0. nra. }
  assert (Hq0 : 0 < a / b) by (apply Rdiv_lt_0_compat; lra).
  assert (Hn : round (a / b) <> 0).
  { apply (round_nonzero round rounding).
    rewrite Rabs_pos_eq by lra. lra. }
  assert (H0 : round 0 <= round (a / b))
    by (apply (round_monotone round rounding); lra).
  rewrite round_0 in H0. lra.
Qed.

Lemma round_ratio_le_1 (a b : R) :
  0 < b -> a <= b -> round (a / b) <= 1.
Proof.
  intros Hb Hab. rewrite <- round_1.
  apply (round_monotone round rounding).
  apply Rmult_le_reg_r with b; [exact Hb|].
  unfold Rdiv. rewrite Rmult_assoc, Rinv_l by lra. lra.
Qed.

Lemma round_ratio_nonpos (a b : R) :
  a * b <= 0 -> b <> 0 -> round (a / b) <= 0.
Proof.
  intros Hab Hb. rewrite <- round_0.
  apply (round_monotone round rounding).
  assert (Hb2 : 0 < b * b) by nra.
  replace (a / b) with ((a * b) / (b * b)) by (field; exact Hb).
  assert (Hi : 0 < / (b * b)) by now apply Rinv_0_lt_compat.
  unfold Rdiv. revert Hi. generalize (/ (b * b)). intros u Hu. nra.
Qed.

Lemma log_int_2 : log_int round libm_log 2 = Return (libm_log 2).
Proof.
  unfold log_int. rewrite float_of_int_in_range by (vm_compute; reflexivity).
  simpl. rewrite round_2. apply log_positive. lra.
Qed.

(** The steps of [get_rel_popularity] once the counts are floats and the
    divisor is not zero. *)
Lemma get_rel_popularity_steps (c_k c_all : Z) :
  (Z.abs c_k < float_limit)%Z -> (Z.abs c_all < float_limit)%Z ->
  round (IZR c_all) <> 0 ->
  get_rel_popularity round libm_log c_k c_all
  = bind (log libm_log (round (round (IZR c_k) / round (IZR c_all))))
         (fun num => float_div round num (libm_log 2)).
Proof.
  intros Hk Hall Hnz. unfold get_rel_popularity, float_mul_int, float_div_int.
  rewrite !float_of_int_in_range by assumption. simpl.
  rewrite Rmult_1_l, (round_float round rounding).
  rewrite float_div_nonzero by exact Hnz. simpl.
  destruct (log libm_log _) as [num|e]; [|reflexivity]. simpl.
  rewrite log_int_2. reflexivity.
Qed.

Lemma get_rel_popularity_in_range (c_k c_all : Z) :
  (1 <= c_k <= c_all)%Z -> (c_all < float_limit)%Z ->
  get_rel_popularity round libm_log c_k c_all
  = Return (score round libm_log c_k c_all)
  /\ score round libm_log c_k c_all <= 0.
Proof.
  intros [Hk Hle] Hlim.
  destruct (round_count c_k ltac:(lia)) as [Ha _].
  destruct (round_count c_all ltac:(lia)) as [Hb Hb'].
  assert (Hab : round (IZR c_k) <= round (IZR c_all))
    by (apply (round_monotone round rounding), IZR_le; exact Hle).
  assert (Hb0 : 0 < round (IZR c_all)) by lra.
  assert (Hpos := round_ratio_pos _ _ Ha (conj Hb0 Hb')).
  assert (Hle1 := round_ratio_le_1 _ _ Hb0 Hab).
  pose proof (log_two libm_log logarithm) as H2.
  split.
  - rewrite get_rel_popularity_steps by (try lia; lra).
    rewrite log_positive by exact Hpos. simpl.
    apply float_div_nonzero. lra.
  - unfold score. rewrite <- round_0.
    apply (round_monotone round rounding).
    pose proof (log_nonpos libm_log logarithm _ (conj Hpos Hle1)) as Hn.
    assert (Hi : 0 < / libm_log 2) by now apply Rinv_0_lt_compat.
    unfold Rdiv. revert Hi. generalize (/ libm_log 2). intros u Hu. nra.
Qed.

(** Counts of the same sign: the quotient is positive and the function
    returns. *)
Lemma get_rel_popularity_same_sign (c_k c_all : Z) :
  (Z.abs c_k < float_limit)%Z -> (Z.abs c_all < float_limit)%Z ->
  (0 < c_k * c_all)%Z ->
  get_rel_popularity round libm_log c_k c_all
  = Return (score round libm_log c_k c_all).
Proof.
  intros Hk Hall Hsign.
  pose proof (log_two libm_log logarithm) as H2.
  assert (Hcase : (1 <= c_k /\ 1 <= c_all)%Z
                  \/ (c_k <= -1 /\ c_all <= -1)%Z) by nia.
  assert (Hnz : round (IZR c_all) <> 0 /\
                0 < round (round (IZR c_k) / round (IZR c_all))).
  { destruct Hcase as [[H1 H1']|[H1 H1']].
    - destruct (round_count c_k ltac:(lia)) as [Ha _].
      destruct (round_count c_all ltac:(lia)) as [Hb Hb'].
      split; [lra|]. apply round_ratio_pos; lra.
    - destruct (round_neg_count c_k ltac:(lia)) as [_ Ha].
      destruct (round_neg_count c_all ltac:(lia)) as [Hb' Hb].
      split; [lra|].
      replace (round (IZR c_k) / round (IZR c_all))
        with ((- round (IZR c_k)) / (- round (IZR c_all)))
        by (field; lra).
      apply round_ratio_pos; lra. }
  destruct Hnz as [Hnz Hpos].
  rewrite get_rel_popularity_steps by assumption.
  rewrite log_positive by exact Hpos. simpl.
  apply float_div_nonzero. lra.
Qed.

(** Counts of opposite signs, or a count of 0 in the group: the
    quotient is not positive and [math.log] raises. *)
Lemma get_rel_popularity_domain (c_k c_all : Z) :
  (Z.abs c_k < float_limit)%Z -> (Z.abs c_all < float_limit)%Z ->
  (c_all <> 0)%Z -> (c_k * c_all <= 0)%Z ->
  get_rel_popularity round libm_log c_k c_all = Raise ValueError.
Proof.
  intros Hk Hall Hnz Hsign.
  assert (Hb : round (IZR c_all) <> 0).
  { destruct (Z_lt_le_dec c_all 0).
    - destruct (round_neg_count c_all ltac:(lia)). lra.
    - destruct (round_count c_all ltac:(lia)). lra. }
  assert (Hab : round (IZR c_k) * round (IZR c_all) <= 0).
  { assert (Hm := round_monotone round rounding).
    destruct (Z_lt_le_dec c_all 0).
    - assert (0 <= c_k)%Z by nia.
      assert (round 0 <= round (IZR c_k)) by (apply Hm, IZR_le; lia).
      assert (round (IZR c_all) <= round 0) by (apply Hm, IZR_le; lia).
      rewrite round_0 in *. nra.
    - assert (c_k <= 0)%Z by nia.
      assert (round (IZR c_k) <= round 0) by (apply Hm, IZR_le; lia).
      assert (round 0 <= round (IZR c_all)) by (apply Hm, IZR_le; lia).
      rewrite round_0 in *. nra. }
  rewrite get_rel_popularity_steps by assumption.
  rewrite log_domain; [reflexivity|].
  now apply round_ratio_nonpos.
Qed.

Lemma get_rel_popularity_zero_all (c_k : Z) :
  (Z.abs c_k < float_limit)%Z ->
  get_rel_popularity round libm_log c_k 0 = Raise ZeroDivisionError.
Proof.
  intros Hk. unfold get_rel_popularity, float_mul_int, float_div_int.
  rewrite !float_of_int_in_range by (try exact Hk; vm_compute; reflexivity).
  simpl. rewrite round_0. now rewrite float_div_zero.
Qed.

End Laws.

Lemma get_rel_popularity_overflow_k round libm_log (c_k c_all : Z) :
  (float_limit <= Z.abs c_k)%Z ->
  get_rel_popularity round libm_log c_k c_all = Raise OverflowError.
Proof.
  intros H. unfold get_rel_popularity, float_mul_int.
  now rewrite float_of_int_overflow.
Qed.

Lemma get_rel_popularity_overflow_all round libm_log (c_k c_all : Z) :
  (float_limit <= Z.abs c_all)%Z ->
  get_rel_popularity round libm_log c_k c_all = Raise OverflowError.
Proof.
  intros H.
  destruct (Z_lt_le_dec (Z.abs c_k) float_limit) as [Hk|Hk];
    [|now apply get_rel_popularity_overflow_k].
  unfold get_rel_popularity, float_mul_int, float_div_int.
  rewrite (float_of_int_in_range round c_k) by exact Hk. simpl.
  now rewrite float_of_int_overflow.
Qed.

(** Exact arithmetic obeys the laws. *)
Lemma exact_rounding : rounding_laws exact.
Proof.
  unfold exact. constructor.
  - intros x y H. exact H.
  - reflexivity.
  - reflexivity.
  - intros x H. left. eapply Rlt_le_trans; [exact H|].
    apply IZR_le. vm_compute. discriminate.
  - intros x H E. subst x. rewrite Rabs_R0 in H.
    assert (0 < / IZR (2 ^ 1074)).
    { apply Rinv_0_lt_compat, IZR_lt. vm_compute. reflexivity. }
    lra.
Qed.

Lemma ln_log_laws : log_laws ln.
Proof.
  constructor.
  - intros x [H0 H1]. rewrite <- ln_1.
    destruct (Req_dec x 1) as [->|Hne]; [lra|].
    left. apply ln_increasing; lra.
  - apply PopularityFacts.ln_2_pos.
Qed.

(** On counts in the range of the floats, exact arithmetic gives the
    score the rankings are stated with. *)
Lemma exact_agrees (c_k c_all : Z) :
  (Z.abs c_k < float_limit)%Z -> (Z.abs c_all < float_limit)%Z ->
  get_rel_popularity exact ln c_k c_all = get_rel_popularity_exact c_k c_all.
Proof.
  intros Hk Hall.
  unfold get_rel_popularity, float_mul_int, float_div_int, log_int.
  rewrite !float_of_int_in_range
    by (try assumption; vm_compute; reflexivity).
  reflexivity.
Qed.

(** With exact arithmetic a returned score is the base-2 logarithm of
    the ratio of the counts. *)
Lemma exact_score_power (c_k c_all : Z) (p : R) :
  get_rel_popularity exact ln c_k c_all = Return p ->
  Rpower 2 p = IZR c_k / IZR c_all.
Proof.
  destruct (Z_lt_le_dec (Z.abs c_k) float_limit) as [Hk|Hk];
    [|rewrite get_rel_popularity_overflow_k by exact Hk; discriminate].
  destruct (Z_lt_le_dec (Z.abs c_all) float_limit) as [Hall|Hall];
    [|rewrite get_rel_popularity_overflow_all by exact Hall; discriminate].
  rewrite exact_agrees by assumption.
  unfold get_rel_popularity_exact, truediv_exact, log_exact.
  destruct (Req_dec_T (IZR c_all) 0) as [|Hnz]; [discriminate|]. simpl.
  destruct (Rle_dec (1 * IZR c_k / IZR c_all) 0) as [|Hpos]; [discriminate|].
  simpl.
  destruct (Rle_dec 2 0) as [|_]; [lra|]. simpl.
  destruct (Req_dec_T (ln 2) 0) as [|H2]; [discriminate|].
  intros E. injection E as <-.
  unfold Rpower.
  replace (ln (1 * IZR c_k / IZR c_all) / ln 2 * ln 2)
    with (ln (1 * IZR c_k / IZR c_all)) by (field; exact H2).
  rewrite exp_ln by lra. lra.
Qed.

End FloatFacts.

(** ** hw2: case folding in the tokenizer *)

Module TokenizerFacts.
Import Py Re HW2.Tokenizer.

Lemma lower_lower (ch : ascii) : lower (lower ch) = lower ch.
Proof. destruct ch as [[] [] [] [] [] [] [] []]; vm_compute; reflexivity. Qed.

Lemma lower_str_idempotent (s : string) : lower_str (lower_str s) = lower_str s.
Proof. induction s as [|ch s IH]; simpl; [|rewrite lower_lower, IH]; auto. Qed.

(** What the case-folding line does keep: a token comes out lower-cased
    unless the pattern compiled into [emoticon_re], which is the URL
    pattern, is found in it. *)
Lemma tokenize_folds (html2unicode : string -> string) (s : string) :
  forallb (fun x => String.eqb (lower_str x) x || search url x)
          (tokenize html2unicode false s) = true.
Proof.
  unfold tokenize. simpl negb. cbv iota.
  induction (findall word_re (html2unicode (to_unicode s))) as [|x l IH];
    simpl; [reflexivity|].
  rewrite IH, andb_true_r.
  change emoticon_re with url.
  destruct (search url x) eqn:E.
  - rewrite E. apply orb_true_r.
  - rewrite lower_str_idempotent, String.eqb_refl. reflexivity.
Qed.

(** C6 fails on the code. [emoticon_re] is compiled from
    [regex_strings[1]], which is the URL pattern; the emoticon pattern
    is [regex_strings[2]]. The text [:D] is one token, the emoticon
    pattern matches it, [emoticon_re] does not, and the tokenizer
    returns it lower-cased. *)
Theorem emoticon_case_lost :
  emoticon_re = url
  /\ nth 2 regex_strings Eps = emoticon_string
  /\ findall word_re ":D" = [":D"]
  /\ fullmatch emoticon_string ":D" = true
  /\ search emoticon_re ":D" = false
  /\ tokenize (fun s => s) false ":D" = [":d"].
Proof. repeat split; vm_compute; reflexivity. Qed.

End TokenizerFacts.

(** ** hw2: the ranking of a group *)

Module RankingFacts.
Import Py HW2 Spec SparkFacts.

Lemma ascii_compare_N (a b : ascii) :
  Ascii.compare a b = N.compare (N_of_ascii a) (N_of_ascii b).
Proof. reflexivity. Qed.

Lemma ascii_compare_Eq (a b : ascii) : Ascii.compare a b = Eq <-> a = b.
Proof.
  split; [apply Ascii.compare_eq_iff|].
  intros ->. rewrite ascii_compare_N. apply N.compare_refl.
Qed.

Lemma string_leb_trans (a b c : string) :
  String.leb a b = true -> String.leb b c = true -> String.leb a c = true.
Proof.
  unfold String.leb.
  revert b c; induction a as [|x a IH]; intros [|y b] [|z c]; simpl;
    try congruence.
  destruct (Ascii.compare x y) eqn:Exy; try discriminate.
  - apply ascii_compare_Eq in Exy. subst y.
    destruct (Ascii.compare x z) eqn:Exz; try congruence.
    apply IH.
  - destruct (Ascii.compare y z) eqn:Eyz; try discriminate.
    + apply ascii_compare_Eq in Eyz. subst z. now rewrite Exy.
    + rewrite ascii_compare_N in *.
      rewrite N.compare_lt_iff in Exy, Eyz.
      assert (H : (N_of_ascii x < N_of_ascii z)%N) by lia.
      apply N.compare_lt_iff in H. now rewrite H.
Qed.

Lemma key_leb_iff (a b : R * string) :
  key_leb a b = true
  <-> (fst a < fst b)%R
      \/ (fst a = fst b /\ String.leb (snd a) (snd b) = true).
Proof.
  unfold key_leb.
  destruct (Rlt_dec (fst a) (fst b)) as [Hlt|Hnlt]; [tauto|].
  destruct (Rlt_dec (fst b) (fst a)) as [Hgt|Hngt].
  - split; [discriminate|]. intros [H|[H _]]; lra.
  - assert (fst a = fst b) by lra. intuition.
Qed.

Lemma key_leb_total (a b : R * string) :
  key_leb a b = true \/ key_leb b a = true.
Proof.
  rewrite !key_leb_iff.
  destruct (total_order_T (fst a) (fst b)) as [[H|H]|H]; [tauto | | tauto].
  destruct (String.leb_total (snd a) (snd b)); [left | right]; right; auto.
Qed.

Lemma key_leb_trans (a b c : R * string) :
  key_leb a b = true -> key_leb b c = true -> key_leb a c = true.
Proof.
  rewrite !key_leb_iff.
  intros [H1|[H1 L1]] [H2|[H2 L2]]; try (left; lra).
  right. split; [congruence|]. eapply string_leb_trans; eassumption.
Qed.

Lemma ranks_before_key (a b : string * R) :
  key_leb ((- snd a)%R, fst a) ((- snd b)%R, fst b) = true
  <-> ranks_before a b.
Proof.
  rewrite key_leb_iff. unfold ranks_before. simpl.
  split; (intros [H|[H L]]; [left; lra | right; split; [lra | exact L]]).
Qed.

Lemma sorted_weaken {A} (P Q : A -> A -> Prop) (l : list A) :
  (forall a b, P a b -> Q a b) -> StronglySorted P l -> StronglySorted Q l.
Proof.
  intros HPQ; induction 1 as [|x l Hs IH Hall]; constructor; auto.
  eapply Forall_impl; [|exact Hall]. auto.
Qed.

Lemma temp_sorted (part : list (Z * (string * R))) :
  StronglySorted ranks_before (temp part).
Proof.
  unfold temp.
  eapply sorted_weaken;
    [| apply sortBy_sorted; [apply key_leb_total | apply key_leb_trans]].
  intros a b H. now apply ranks_before_key.
Qed.

Lemma firstn_In {A} (n : nat) (l : list A) (x : A) :
  In x (firstn n l) -> In x l.
Proof.
  intros H. rewrite <- (firstn_skipn n l). apply in_or_app. now left.
Qed.

Lemma firstn_sorted {A} (R : A -> A -> Prop) (n : nat) (l : list A) :
  StronglySorted R l -> StronglySorted R (firstn n l).
Proof.
  intros H; revert n; induction H as [|x l Hs IH Hall]; intros [|n];
    simpl; try constructor.
  - apply IH.
  - apply Forall_forall. intros y Hy.
    eapply Forall_forall; [exact Hall|].
    eapply firstn_In; eassumption.
Qed.

End RankingFacts.

(** ** hw2: counting the mentions of a token *)

Module PipelineFacts.
Import Py HW2 Spec SparkFacts.

Lemma mapValues_id {K V} (rdd : list (K * V)) :
  Spark.mapValues (fun x => x) rdd = rdd.
Proof.
  unfold Spark.mapValues.
  induction rdd as [|[k v] rdd IH]; simpl; [|rewrite IH]; reflexivity.
Qed.

Lemma values_of_map {A K V} (eqb : K -> K -> bool) (kf : A -> K)
      (vf : A -> V) (k : K) (l : list A) :
  values_of eqb k (map (fun x => (kf x, vf x)) l)
  = map vf (filter (fun x => eqb k (kf x)) l).
Proof.
  unfold values_of.
  induction l as [|x l IH]; simpl; [reflexivity|].
  destruct (eqb k (kf x)); simpl; now rewrite IH.
Qed.

Lemma mem_In (t : string) (l : list string) : mem t l = true <-> In t l.
Proof.
  unfold mem. rewrite existsb_exists. split.
  - intros (x & Hx & E). apply String.eqb_eq in E. now subst.
  - intros H. exists t. split; [assumption | apply String.eqb_refl].
Qed.

Lemma fold_union_members (vs : list (list string)) o (t : string) :
  members (fold_left (combine (fun a b => union a b)) vs o) t
  <-> members o t \/ exists v, In v vs /\ In t v.
Proof.
  revert o; induction vs as [|v vs IH]; intros o; simpl.
  - split; [tauto | intros [H|(v & [] & _)]; exact H].
  - rewrite IH.
    assert (Hc : members (combine (fun a b => union a b) o v) t
                 <-> members o t \/ In t v).
    { destruct o as [a|]; simpl; [|tauto].
      unfold union. rewrite nodup_In, in_app_iff. tauto. }
    rewrite Hc. split.
    + intros [[H|H]|(v' & Hv' & Ht)]; eauto.
    + intros [H|(v' & [<-|Hv'] & Ht)]; eauto.
Qed.

Lemma fold_union_NoDup (vs : list (list string)) o :
  Forall (@NoDup string) vs -> nodup_opt o ->
  nodup_opt (fold_left (combine (fun a b => union a b)) vs o).
Proof.
  intros Hvs; revert o; induction Hvs as [|v vs Hv Hvs IH]; intros o Ho;
    simpl; [assumption|].
  apply IH. destruct o as [a|]; simpl; [apply NoDup_nodup | exact Hv].
Qed.

Lemma flatMapValues_NoDup {K V} (rdd : list (K * list V)) :
  NoDup (map fst rdd) -> Forall (fun kv => NoDup (snd kv)) rdd ->
  NoDup (Spark.flatMapValues (fun x => x) rdd).
Proof.
  unfold Spark.flatMapValues.
  induction rdd as [|[k s] rdd IH]; simpl; intros Hk Hs; [constructor|].
  inversion Hk as [|? ? Hnotin Hk']; subst.
  inversion Hs as [|? ? Hs1 Hs']; subst. simpl in Hs1.
  apply NoDup_app.
  - apply Finite.Injective_map_NoDup; [|assumption].
    intros a b E. congruence.
  - auto.
  - intros [k' w] Hin1 Hin2.
    apply in_map_iff in Hin1. destruct Hin1 as (w' & E & _).
    inversion E; subst.
    apply in_flat_map in Hin2. destruct Hin2 as ([k2 s2] & Hin & Hin2).
    apply in_map_iff in Hin2. destruct Hin2 as (w2 & E2 & _).
    simpl in E2. inversion E2; subst.
    apply Hnotin. apply in_map_iff. now exists (k', s2).
Qed.

Section Counts.
Variable tokenize : string -> list string.
Variable mypickle : list (string * Z).
Variable usertweets : list (string * string).

Let inter := inter_usertweets tokenize usertweets.
Let pairs := Spark.flatMapValues (fun x : list string => x) inter.

Lemma inter_NoDup : NoDup (map fst inter).
Proof.
  unfold inter, inter_usertweets. rewrite mapValues_id.
  apply NoDup_reduceByKey, String.eqb_spec.
Qed.

Lemma inter_keys (u : string) :
  In u (map fst inter) <-> In u (map fst usertweets).
Proof.
  unfold inter, inter_usertweets. rewrite mapValues_id.
  rewrite keys_reduceByKey by apply String.eqb_spec.
  now rewrite map_map.
Qed.

Lemma mentions_iff (u t : string) :
  mentions tokenize usertweets u t = true
  <-> exists x, In x usertweets /\ fst x = u /\ In t (tokenize (snd x)).
Proof.
  unfold mentions. rewrite existsb_exists.
  split; intros (x & Hx & H); exists x; (split; [assumption|]).
  - apply andb_true_iff in H. destruct H as [E M].
    apply String.eqb_eq in E. apply mem_In in M. auto.
  - destruct H as [E M]. apply andb_true_iff.
    split; [now apply String.eqb_eq | now apply mem_In].
Qed.

(** The token set of a user holds each token the user ever used, once. *)
Lemma inter_spec (u : string) (s : list string) :
  In (u, s) inter ->
  NoDup s /\ forall t, In t s <-> mentions tokenize usertweets u t = true.
Proof.
  intros Hin.
  apply (In_lookup String.eqb String.eqb_spec) in Hin;
    [|apply inter_NoDup].
  unfold inter, inter_usertweets in Hin.
  rewrite mapValues_id in Hin.
  rewrite lookup_reduceByKey in Hin by apply String.eqb_spec.
  rewrite (values_of_map String.eqb fst
             (fun x => set (tokenize (snd x)))) in Hin.
  split.
  - pose proof (fold_union_NoDup
                  (map (fun x => set (tokenize (snd x)))
                       (filter (fun x => String.eqb u (fst x)) usertweets))
                  None) as H.
    rewrite Hin in H. apply H; [|exact I].
    apply Forall_forall. intros v Hv. apply in_map_iff in Hv.
    destruct Hv as (x & <- & _). apply NoDup_nodup.
  - intros t.
    pose proof (fold_union_members
                  (map (fun x => set (tokenize (snd x)))
                       (filter (fun x => String.eqb u (fst x)) usertweets))
                  None t) as H.
    rewrite Hin in H. simpl in H. rewrite H, mentions_iff. split.
    + intros [[]|(v & Hv & Ht)]. apply in_map_iff in Hv.
      destruct Hv as (x & <- & Hx). apply filter_In in Hx.
      destruct Hx as [Hx E]. apply String.eqb_eq in E.
      exists x. unfold set in Ht. rewrite nodup_In in Ht. auto.
    + intros (x & Hx & E & Ht). right.
      exists (set (tokenize (snd x))). split.
      * apply in_map_iff. exists x. split; [reflexivity|].
        apply filter_In. split; [assumption|]. now apply String.eqb_eq.
      * unfold set. now rewrite nodup_In.
Qed.

Lemma pairs_NoDup : NoDup pairs.
Proof.
  apply flatMapValues_NoDup; [apply inter_NoDup|].
  apply Forall_forall. intros [u s] Hin. now apply inter_spec in Hin.
Qed.

Lemma pairs_In (u t : string) :
  In (u, t) pairs <-> mentions tokenize usertweets u t = true.
Proof.
  unfold pairs, Spark.flatMapValues. rewrite in_flat_map. split.
  - intros ([u' s] & Hin & H). apply in_map_iff in H.
    destruct H as (w & E & Hw). simpl in E. inversion E; subst.
    now apply (inter_spec u s).
  - intros H.
    assert (Hu : In u (map fst inter)).
    { apply inter_keys. apply mentions_iff in H.
      destruct H as (x & Hx & <- & _). now apply in_map. }
    apply in_map_iff in Hu. destruct Hu as ([u' s] & E & Hin).
    simpl in E. subst u'. exists (u, s). split; [assumption|].
    apply in_map_iff. exists t. split; [reflexivity|].
    now apply (inter_spec u s).
Qed.
End Counts.

Lemma fold_add_ones {A} (xs : list A) (a : Z) :
  fold_left (combine (fun a b => a + b)) (map (fun _ => 1) xs) (Some a)
  = Some (a + Z.of_nat (List.length xs)).
Proof.
  revert a; induction xs as [|x xs IH]; intros a; simpl.
  - f_equal. lia.
  - unfold combine at 2. rewrite IH. f_equal. lia.
Qed.

(** Counting with [map (k, 1)] and [reduceByKey (+)]. *)
Lemma lookup_count {A K} (eqb : K -> K -> bool)
      (eqb_spec : forall a b, reflect (a = b) (eqb a b))
      (kf : A -> K) (l : list A) (k : K) :
  lookup eqb k
    (Spark.reduceByKey eqb (fun a b => a + b) (map (fun x => (kf x, 1)) l))
  = let n := Z.of_nat (List.length (filter (fun x => eqb k (kf x)) l)) in
    if 0 <? n then Some n else None.
Proof.
  rewrite lookup_reduceByKey by assumption.
  rewrite (values_of_map eqb kf (fun _ => 1)).
  destruct (filter (fun x => eqb k (kf x)) l) as [|x xs]; [reflexivity|].
  simpl map. simpl fold_left. unfold combine at 2.
  rewrite fold_add_ones. cbv zeta.
  destruct (Z.ltb_spec 0 (Z.of_nat (List.length (x :: xs))));
    simpl List.length in *; [f_equal|]; lia.
Qed.

Lemma sum_indicator {A} (p : A -> bool) (l : list A) :
  fold_right Z.add 0 (map (fun u => if p u then 1 else 0) l)
  = Z.of_nat (List.length (filter p l)).
Proof.
  induction l as [|x l IH]; simpl; [reflexivity|].
  rewrite IH. destruct (p x); simpl List.length; lia.
Qed.

Lemma filter_twice {A} (p r : A -> bool) (l : list A) :
  filter p (filter r l) = filter (fun x => r x && p x) l.
Proof.
  induction l as [|x l IH]; simpl; [reflexivity|].
  destruct (r x); simpl; [destruct (p x)|]; now rewrite IH.
Qed.

Lemma NoDup_keys_filter {K V} (p : K * V -> bool) (l : list (K * V)) :
  NoDup (map fst l) -> NoDup (map fst (filter p l)).
Proof.
  induction l as [|kv l IH]; simpl; intros H; [constructor|].
  inversion H as [|? ? Hnotin H']; subst.
  destruct (p kv); simpl; [|auto].
  constructor; [|auto].
  intros Hin. apply Hnotin. apply in_map_iff in Hin.
  destruct Hin as (x & E & Hx). apply filter_In in Hx.
  apply in_map_iff. exists x. tauto.
Qed.

(** Looking a key up after [filter] and [sortBy]. *)
Lemma lookup_sort_filter {K V S} (eqb : K -> K -> bool)
      (eqb_spec : forall a b, reflect (a = b) (eqb a b))
      (key : K * V -> S) (leb : S -> S -> bool) (p : K * V -> bool)
      (l : list (K * V)) (k : K) :
  NoDup (map fst l) ->
  lookup eqb k (Spark.sortBy key leb (filter p l))
  = match lookup eqb k l with
    | Some v => if p (k, v) then Some v else None
    | None => None
    end.
Proof.
  intros Hnd.
  assert (Hperm := sortBy_perm key leb (filter p l)).
  set (l' := Spark.sortBy key leb (filter p l)) in *.
  assert (Hnd' : NoDup (map fst l')).
  { eapply Permutation_NoDup;
      [apply Permutation_map; symmetry; exact Hperm|].
    now apply NoDup_keys_filter. }
  assert (Hin : forall kv, In kv l' <-> In kv l /\ p kv = true).
  { intros kv. rewrite <- filter_In. split; apply Permutation_in;
      [exact Hperm | symmetry; exact Hperm]. }
  destruct (lookup eqb k l) as [v|] eqn:El.
  - destruct (p (k, v)) eqn:Ep.
    + apply In_lookup; [assumption.. |]. apply Hin.
      split; [|assumption]. eapply lookup_In; eassumption.
    + destruct (lookup eqb k l') as [v'|] eqn:E'; [|reflexivity].
      apply (lookup_In eqb eqb_spec) in E'. apply Hin in E'.
      destruct E' as [E' Ep'].
      apply (In_lookup eqb eqb_spec _ _ _ Hnd) in E'. congruence.
  - destruct (lookup eqb k l') as [v'|] eqn:E'; [|reflexivity].
    apply (lookup_In eqb eqb_spec) in E'. apply Hin in E'.
    destruct E' as [E' _].
    apply (In_lookup eqb eqb_spec _ _ _ Hnd) in E'. congruence.
Qed.

Lemma group_token_eqb_spec (a b : Z * string) :
  reflect (a = b) (group_token_eqb a b).
Proof.
  unfold group_token_eqb. destruct a as [g t], b as [g' t']. simpl.
  destruct (Z.eqb_spec g g'), (String.eqb_spec t t'); simpl;
    constructor; congruence.
Qed.

Lemma mapM_Return {A B} (f : A -> result B) (g : A -> B) (l : list A) :
  (forall x, In x l -> f x = Return (g x)) -> mapM f l = Return (map g l).
Proof.
  induction l as [|x l IH]; intros H; simpl; [reflexivity|].
  rewrite H by now left. simpl. rewrite IH by (intros; apply H; now right).
  reflexivity.
Qed.

Section Mentions.
Variable tokenize : string -> list string.
Variable mypickle : list (string * Z).
Variable usertweets : list (string * string).

Let inter := inter_usertweets tokenize usertweets.
Let pairs := Spark.flatMapValues (fun x : list string => x) inter.
Let mentions := Spec.mentions tokenize usertweets.
Let users := Spec.users usertweets.
Let total_count := Spec.total_count tokenize usertweets.
Let user_count := Spec.user_count tokenize mypickle usertweets.
Let dic := HW2.dic tokenize usertweets.
Let group_counts := HW2.group_counts tokenize mypickle usertweets.

(** The (user, token) pairs with token [t] and a user that satisfies
    [p] are as many as the users that satisfy [p] and mention [t]. *)
Lemma count_pairs (p : string -> bool) (t : string) :
  List.length (filter (fun x => p (fst x) && String.eqb t (snd x)) pairs)
  = List.length (filter (fun u => p u && mentions u t) users).
Proof.
  rewrite <- (length_map fst).
  apply Permutation_length, NoDup_Permutation.
  - apply Finite.Injective_map_NoDup_in.
    + intros [u1 t1] [u2 t2] H1 H2 E. simpl in E. subst u2.
      apply filter_In in H1, H2. simpl in H1, H2.
      destruct H1 as [_ H1], H2 as [_ H2].
      apply andb_true_iff in H1, H2.
      destruct H1 as [_ H1], H2 as [_ H2].
      apply String.eqb_eq in H1, H2. congruence.
    + apply NoDup_filter, pairs_NoDup.
  - apply NoDup_filter, NoDup_nodup.
  - intros u. rewrite in_map_iff, filter_In. split.
    + intros ([u' t'] & E & Hin). simpl in E. subst u'.
      apply filter_In in Hin. simpl in Hin. destruct Hin as [Hin Hp].
      apply andb_true_iff in Hp. destruct Hp as [Hp Ht].
      apply String.eqb_eq in Ht. subst t'.
      apply pairs_In in Hin. fold mentions in Hin. split.
      * unfold users, Spec.users. apply nodup_In.
        apply mentions_iff in Hin. destruct Hin as (x & Hx & <- & _).
        now apply in_map.
      * now rewrite Hp, Hin.
    + intros [_ H]. apply andb_true_iff in H. destruct H as [Hp Hm].
      exists (u, t). split; [reflexivity|]. apply filter_In. split.
      * now apply pairs_In.
      * simpl. now rewrite Hp, String.eqb_refl.
Qed.

Lemma total_count_length (t : string) :
  total_count t
  = Z.of_nat (List.length (filter (fun u => mentions u t) users)).
Proof. apply sum_indicator. Qed.

Lemma user_count_length (g : Z) (t : string) :
  user_count g t
  = Z.of_nat (List.length
                (filter (fun u => (help4 mypickle u =? g) && mentions u t)
                        users)).
Proof.
  unfold user_count, Spec.user_count, contribution.
  apply (sum_indicator (fun u => (help4 mypickle u =? g) && _)).
Qed.

Lemma user_count_le_total (g : Z) (t : string) :
  0 <= user_count g t <= total_count t.
Proof.
  rewrite user_count_length, total_count_length. split; [lia|].
  apply inj_le. induction users as [|u l IH]; simpl; [lia|].
  destruct (help4 mypickle u =? g); simpl;
    destruct (mentions u t); simpl; lia.
Qed.

Lemma flatMap_snd_pairs :
  Spark.flatMap (fun x : string * list string => snd x) inter
  = map snd pairs.
Proof.
  unfold pairs, Spark.flatMap, Spark.flatMapValues.
  induction inter as [|[u s] l IH]; simpl; [reflexivity|].
  rewrite map_app, map_map, IH. simpl. now rewrite map_id.
Qed.

(** The global count of a token is the number of users that mention
    it. *)
Lemma all_counts_lookup (t : string) :
  lookup String.eqb t (all_counts tokenize usertweets)
  = if 0 <? total_count t then Some (total_count t) else None.
Proof.
  unfold all_counts. fold inter.
  rewrite flatMap_snd_pairs, map_map.
  rewrite (lookup_count String.eqb String.eqb_spec snd).
  assert (E : filter (fun x => String.eqb t (snd x)) pairs
              = filter (fun x => (fun _ => true) (fst x)
                                 && String.eqb t (snd x)) pairs)
    by reflexivity.
  rewrite E, (count_pairs (fun _ => true)). simpl andb.
  now rewrite <- total_count_length.
Qed.

(** [dic] holds the tokens with a global count of at least 100. *)
Lemma dic_lookup (t : string) :
  lookup String.eqb t dic
  = if 100 <=? total_count t then Some (total_count t) else None.
Proof.
  unfold dic, HW2.dic, Spark.collectAsMap, tokens.
  fold (all_counts tokenize usertweets).
  rewrite lookup_sort_filter;
    [| apply String.eqb_spec | apply NoDup_reduceByKey, String.eqb_spec].
  rewrite all_counts_lookup.
  destruct (Z.ltb_spec 0 (total_count t)); simpl snd;
    rewrite ?Z.geb_leb;
    destruct (Z.leb_spec 100 (total_count t)); try reflexivity; lia.
Qed.

Lemma dic_contains (t : string) :
  contains String.eqb dic t = (100 <=? total_count t).
Proof.
  unfold contains. rewrite dic_lookup.
  destruct (100 <=? total_count t); reflexivity.
Qed.

(** C3 on [interresults]: the count of a (group, token) pair. *)
Lemma group_counts_lookup (g : Z) (t : string) :
  lookup group_token_eqb (g, t) group_counts
  = if (100 <=? total_count t) && (0 <? user_count g t)
    then Some (user_count g t) else None.
Proof.
  unfold group_counts, HW2.group_counts. cbv zeta. fold inter pairs dic.
  rewrite (lookup_count group_token_eqb group_token_eqb_spec
             (fun x => (help4 mypickle (fst x), snd x))).
  rewrite filter_twice.
  pose (p := fun u => (100 <=? total_count t) && (help4 mypickle u =? g)).
  assert (E : filter
                (fun x => contains String.eqb dic (snd x)
                          && group_token_eqb
                               (g, t) (help4 mypickle (fst x), snd x))
                pairs
              = filter (fun x => p (fst x) && String.eqb t (snd x)) pairs).
  { apply filter_ext. intros [u t']. unfold group_token_eqb, p. simpl.
    destruct (String.eqb_spec t t') as [<-|];
      [|now rewrite !andb_false_r].
    rewrite dic_contains, !andb_true_r. f_equal. apply Z.eqb_sym. }
  rewrite E, (count_pairs p t). unfold p. cbv zeta.
  destruct (100 <=? total_count t); simpl.
  - now rewrite <- user_count_length.
  - assert (H : forall l : list string, filter (fun _ => false) l = [])
      by (induction l; auto).
    rewrite H. reflexivity.
Qed.

Lemma group_counts_NoDup : NoDup (map fst group_counts).
Proof. apply NoDup_reduceByKey, group_token_eqb_spec. Qed.

Lemma group_counts_In (g : Z) (t : string) (c : Z) :
  In ((g, t), c) group_counts
  <-> 100 <= total_count t /\ 1 <= user_count g t /\ c = user_count g t.
Proof.
  split.
  - intros H.
    apply (In_lookup group_token_eqb group_token_eqb_spec) in H;
      [|apply group_counts_NoDup].
    rewrite group_counts_lookup in H.
    destruct (Z.leb_spec 100 (total_count t));
      destruct (Z.ltb_spec 0 (user_count g t)); simpl in H;
      try discriminate.
    inversion H. lia.
  - intros (H1 & H2 & ->).
    apply (lookup_In group_token_eqb group_token_eqb_spec).
    rewrite group_counts_lookup.
    destruct (Z.leb_spec 100 (total_count t));
      destruct (Z.ltb_spec 0 (user_count g t)); simpl;
      try reflexivity; lia.
Qed.
End Mentions.

Lemma nth_glom {V} (rdd : list (Z * V)) (i : Z) :
  0 <= i < 8 ->
  nth (Z.to_nat i) (Spark.glom_partitionBy 8 rdd) []
  = filter (fun kv => Spark.portable_hash (fst kv) mod 8 =? i) rdd.
Proof.
  intros H.
  assert (E : i = 0 \/ i = 1 \/ i = 2 \/ i = 3 \/ i = 4 \/ i = 5 \/ i = 6
              \/ i = 7) by lia.
  repeat (destruct E as [->|E]; [reflexivity|]). subst i. reflexivity.
Qed.

Lemma temp_perm (part : list (Z * (string * R))) :
  Permutation (temp part) (map snd part).
Proof. apply sortBy_perm. Qed.

Section Rankings.
Variable tokenize : string -> list string.
Variable mypickle : list (string * Z).
Variable usertweets : list (string * string).

Let total_count := Spec.total_count tokenize usertweets.
Let user_count := Spec.user_count tokenize mypickle usertweets.
Let group_counts := HW2.group_counts tokenize mypickle usertweets.
Let parts := partitions tokenize mypickle usertweets.

(** No score raises: the counts that reach [get_rel_popularity_exact]
    are positive. *)
Lemma interresults_returns :
  interresults tokenize mypickle usertweets = Return parts.
Proof.
  unfold interresults.
  rewrite (mapM_Return _ (scored tokenize usertweets)); [reflexivity|].
  intros [[g t] c] Hin. apply group_counts_In in Hin.
  destruct Hin as (Htot & Hk & ->). simpl.
  unfold dict_getitem. rewrite dic_lookup.
  destruct (Z.leb_spec 100 (Spec.total_count tokenize usertweets t));
    [|lia].
  simpl. rewrite PopularityFacts.get_rel_popularity_exact_returns by lia.
  reflexivity.
Qed.

Lemma rankings_returns :
  rankings tokenize mypickle usertweets
  = Return (map (fun i => (i, top10 (nth (Z.to_nat i) parts [])))
                (range 8)).
Proof.
  unfold rankings. rewrite interresults_returns. reflexivity.
Qed.

Lemma parts_In (i g : Z) (t : string) (p : R) :
  In (g, (t, p)) (nth (Z.to_nat i) parts []) ->
  100 <= total_count t /\ 1 <= user_count g t.
Proof.
  intros Hin.
  remember (nth (Z.to_nat i) parts []) as part eqn:Epart.
  assert (Hcase : In part parts \/ part = []).
  { subst part. destruct (nth_in_or_default (Z.to_nat i) parts []); auto. }
  destruct Hcase as [Hp|Hd]; [|rewrite Hd in Hin; contradiction].
  unfold parts, partitions, Spark.glom_partitionBy in Hp.
  apply in_map_iff in Hp. destruct Hp as (j & Hj & _).
  rewrite <- Hj in Hin. apply filter_In in Hin. destruct Hin as [Hin _].
  apply in_map_iff in Hin. destruct Hin as ([[g' t'] c] & E & Hin).
  unfold scored in E. simpl in E. inversion E; subst.
  apply group_counts_In in Hin. tauto.
Qed.

Lemma parts_has (g : Z) (t : string) :
  100 <= total_count t -> 1 <= user_count g t ->
  exists p,
    In (g, (t, p))
       (nth (Z.to_nat (Spark.portable_hash g mod 8)) parts []).
Proof.
  intros Htot Hk.
  exists (snd (snd (scored tokenize usertweets ((g, t), user_count g t)))).
  unfold parts, partitions.
  rewrite nth_glom by (apply Z.mod_pos_bound; lia).
  apply filter_In. split; [|apply Z.eqb_refl].
  apply in_map_iff. exists ((g, t), user_count g t).
  split; [reflexivity|]. now apply group_counts_In.
Qed.

Lemma top10_tokens (i : Z) (t : string) :
  In t (map fst (top10 (nth (Z.to_nat i) parts []))) ->
  100 <= total_count t.
Proof.
  intros Hin. apply in_map_iff in Hin.
  destruct Hin as ([t' p] & E & Hin). simpl in E. subst t'.
  apply RankingFacts.firstn_In in Hin.
  apply (Permutation_in _ (temp_perm _)) in Hin.
  apply in_map_iff in Hin. destruct Hin as ([g [t' p']] & E & Hin).
  simpl in E. inversion E; subst.
  now apply parts_In in Hin.
Qed.
End Rankings.

Lemma users_repeat (x : string * string) (usertweets : list (string * string)) :
  In x usertweets -> users (x :: usertweets) = users usertweets.
Proof.
  intros H. unfold users. simpl.
  destruct (in_dec string_dec (fst x) (map fst usertweets)) as [|Hn];
    [reflexivity|].
  exfalso. apply Hn. now apply in_map.
Qed.

Lemma mentions_repeat tokenize (x : string * string)
      (usertweets : list (string * string)) (u t : string) :
  In x usertweets ->
  mentions tokenize (x :: usertweets) u t = mentions tokenize usertweets u t.
Proof.
  intros H. unfold mentions. simpl.
  destruct (String.eqb (fst x) u && mem t (tokenize (snd x))) eqn:E;
    [|reflexivity].
  simpl. symmetry. apply existsb_exists. now exists x.
Qed.

Lemma counts_repeat tokenize mypickle (x : string * string)
      (usertweets : list (string * string)) (g : Z) (t : string) :
  In x usertweets ->
  total_count tokenize (x :: usertweets) t = total_count tokenize usertweets t
  /\ user_count tokenize mypickle (x :: usertweets) g t
     = user_count tokenize mypickle usertweets g t.
Proof.
  intros H. unfold total_count, user_count.
  rewrite (users_repeat x usertweets H).
  split; f_equal; apply map_ext; intros u;
    unfold contribution_all, contribution;
    now rewrite (mentions_repeat tokenize x usertweets u t H).
Qed.

End PipelineFacts.

(** ** hw2: the claims on the popularity pipeline *)

Module PopularityClaims.
Import Py HW2 Spec SparkFacts PipelineFacts FloatFacts.

(** C3. A user adds 1 to the count of a (group, token) pair when the
    user is in the group and the token occurs in at least one of the
    user's tweets, and 0 otherwise: the count the pipeline holds for
    the pair (tokens under the threshold have none) is the number of
    distinct users of the group that mention the token, the global
    count is the number of distinct users that mention it, and a tweet
    that is already there changes neither. *)
Theorem one_mention_per_user (tokenize : string -> list string)
        (mypickle : list (string * Z)) (usertweets : list (string * string))
        (g : Z) (t : string) :
  let n_k := user_count tokenize mypickle usertweets g t in
  let n_all := total_count tokenize usertweets t in
  n_k = Z.of_nat
          (List.length
             (filter (fun u => (help4 mypickle u =? g)
                               && mentions tokenize usertweets u t)
                     (users usertweets)))
  /\ n_all = Z.of_nat
               (List.length
                  (filter (fun u => mentions tokenize usertweets u t)
                          (users usertweets)))
  /\ lookup String.eqb t (dic tokenize usertweets)
     = (if 100 <=? n_all then Some n_all else None)
  /\ lookup group_token_eqb (g, t)
            (group_counts tokenize mypickle usertweets)
     = (if (100 <=? n_all) && (0 <? n_k) then Some n_k else None)
  /\ (forall x, In x usertweets ->
        lookup group_token_eqb (g, t)
               (group_counts tokenize mypickle (x :: usertweets))
        = lookup group_token_eqb (g, t)
                 (group_counts tokenize mypickle usertweets)).
Proof.
  cbv zeta. split; [|split; [|split; [|split]]].
  - apply user_count_length.
  - apply total_count_length.
  - apply dic_lookup.
  - apply group_counts_lookup.
  - intros x Hx. rewrite !group_counts_lookup.
    destruct (counts_repeat tokenize mypickle x usertweets g t Hx)
      as [-> ->].
    reflexivity.
Qed.

(** User [0], of group 3, says [maga] three times in two tweets, and 99
    other users once: 1 mention in group 3, 99 in group 7, 100 in all. *)
Example repeated_mentions_count_once :
  let usertweets := ("0", "maga MAGA") :: one_tweet_each 100 in
  group_counts tok [("0", 3)] usertweets
  = [((3, "maga"), 1); ((7, "maga"), 99)]
  /\ dic tok usertweets = [("maga", 100)].
Proof. split; vm_compute; reflexivity. Qed.

(** C4. The pipeline never raises. A token whose global count is under
    100 is in [dic] no more and in no group's top 10; a token whose
    global count is 100 or more is in [dic], and for every group with a
    user that mentions it, it is among the records ranked for that
    group (in the partition of the group), hence in its top 10 when no
    more than 10 tokens are ranked there. *)
Theorem popularity_threshold (tokenize : string -> list string)
        (mypickle : list (string * Z)) (usertweets : list (string * string))
        (t : string) :
  let parts := partitions tokenize mypickle usertweets in
  let n_all := total_count tokenize usertweets t in
  interresults tokenize mypickle usertweets = Return parts
  /\ rankings tokenize mypickle usertweets
     = Return (map (fun i => (i, top10 (nth (Z.to_nat i) parts [])))
                   (range 8))
  /\ contains String.eqb (dic tokenize usertweets) t = (100 <=? n_all)
  /\ (n_all < 100 ->
      forall i, ~ In t (map fst (top10 (nth (Z.to_nat i) parts []))))
  /\ (100 <= n_all ->
      forall g, 1 <= user_count tokenize mypickle usertweets g t ->
      let part := nth (Z.to_nat (Spark.portable_hash g mod 8)) parts [] in
      exists p,
        In (g, (t, p)) part
        /\ In (t, p) (temp part)
        /\ ((List.length part <= 10)%nat -> In (t, p) (top10 part))).
Proof.
  cbv zeta. split; [|split; [|split; [|split]]].
  - apply interresults_returns.
  - apply rankings_returns.
  - apply dic_contains.
  - intros Hlt i Hin. apply top10_tokens in Hin. lia.
  - intros Hge g Hg.
    destruct (parts_has tokenize mypickle usertweets g t Hge Hg)
      as [p Hp].
    exists p. split; [exact Hp|].
    assert (Htemp : In (t, p)
              (temp (nth (Z.to_nat (Spark.portable_hash g mod 8))
                         (partitions tokenize mypickle usertweets) []))).
    { apply (Permutation_in _ (Permutation_sym (temp_perm _))).
      apply in_map_iff. now exists (g, (t, p)). }
    split; [exact Htemp|].
    intros Hlen. unfold top10, Spark.take.
    rewrite firstn_all2; [exact Htemp|].
    rewrite (Permutation_length (temp_perm _)), length_map. exact Hlen.
Qed.

(** The scenario of the specification: a token used by 99 users is in
    no ranking; used by 100 users (none of them in the users partition)
    it is the ranking of group 7. *)
Lemma popularity_threshold_witness :
  (total_count tok (one_tweet_each 99) "maga" = 99
   /\ exists rs,
       rankings tok [] (one_tweet_each 99) = Return rs
       /\ Forall (fun ir => ~ In "maga" (map fst (snd ir))) rs)
  /\ (total_count tok (one_tweet_each 100) "maga" = 100
      /\ exists rs p,
          rankings tok [] (one_tweet_each 100) = Return rs
          /\ In (7, [("maga", p)]) rs).
Proof.
  assert (total_of : forall ut n,
             lookup String.eqb "maga" (all_counts tok ut) = Some n ->
             total_count tok ut "maga" = n).
  { intros ut n H. rewrite all_counts_lookup in H.
    destruct (0 <? total_count tok ut "maga"); congruence. }
  split.
  - assert (E : total_count tok (one_tweet_each 99) "maga" = 99)
      by (apply total_of; vm_compute; reflexivity).
    split; [exact E|].
    destruct (popularity_threshold tok [] (one_tweet_each 99) "maga")
      as (_ & Hr & _ & Hlt & _).
    eexists. split; [exact Hr|].
    apply Forall_map. apply Forall_forall. intros j _.
    cbn [snd]. apply Hlt. rewrite E. lia.
  - assert (E : total_count tok (one_tweet_each 100) "maga" = 100)
      by (apply total_of; vm_compute; reflexivity).
    split; [exact E|].
    destruct (popularity_threshold tok [] (one_tweet_each 100) "maga")
      as (_ & Hr & _).
    assert (Egc : group_counts tok [] (one_tweet_each 100)
                  = [((7, "maga"), 100)]) by (vm_compute; reflexivity).
    exists (map (fun i => (i, top10 (nth (Z.to_nat i)
                                 (partitions tok [] (one_tweet_each 100))
                                 []))) (range 8)).
    exists (snd (snd (scored tok (one_tweet_each 100) ((7, "maga"), 100)))).
    split; [exact Hr|].
    apply in_map_iff. exists 7. split; [|vm_compute; tauto].
    unfold partitions. rewrite Egc. reflexivity.
Defined.

(** C1. The list ranked for a group holds the group's records, each
    once, ordered by score descending and, at equal score, by token in
    ascending lexical order; what is printed is its first 10 entries,
    all of them when there are fewer; and the pipeline hands exactly
    these lists, for the groups 0 to 7, to the printer. *)
Theorem ranking_order (part : list (Z * (string * R))) :
  Permutation (temp part) (map snd part)
  /\ StronglySorted ranks_before (temp part)
  /\ top10 part = firstn 10 (temp part)
  /\ StronglySorted ranks_before (top10 part)
  /\ List.length (top10 part) = Nat.min 10 (List.length part)
  /\ (forall tokenize mypickle usertweets,
        rankings tokenize mypickle usertweets
        = Return (map (fun i =>
                         (i, top10 (nth (Z.to_nat i)
                                        (partitions tokenize mypickle
                                                    usertweets) [])))
                      (range 8))).
Proof.
  split; [|split; [|split; [|split; [|split]]]].
  - apply temp_perm.
  - apply RankingFacts.temp_sorted.
  - reflexivity.
  - apply RankingFacts.firstn_sorted, RankingFacts.temp_sorted.
  - unfold top10, Spark.take.
    now rewrite length_firstn, (Permutation_length (temp_perm _)), length_map.
  - apply rankings_returns.
Qed.

(** A tie is broken by the token, a higher score comes first. *)
Example ranking_of_three :
  temp [(0, ("b", (-1)%R)); (0, ("a", (-1)%R)); (0, ("c", (-1 / 2)%R))]
  = [("c", (-1 / 2)%R); ("a", (-1)%R); ("b", (-1)%R)].
Proof.
  unfold temp, Spark.sortBy. simpl. unfold key_leb. simpl.
  repeat (destruct (Rlt_dec _ _); try lra; simpl).
  reflexivity.
Qed.

(** C2, as the code has it. The counts are converted to floats and every
    operation rounds. With [1 <= c_k <= c_all] and [c_all] in the range
    of the floats the function returns the rounded quotient of the
    library logarithms of the rounded ratio and of 2, and this score is
    at most 0; when [c_all] is too large for a float it raises
    [OverflowError]. With a global count of 0 it returns no value: it
    raises [ZeroDivisionError], or [OverflowError] when [c_k] is too
    large. When nothing rounds, a returned score [p] has
    [2^p = c_k / c_all]: it is the base-2 logarithm of the ratio. In the
    pipeline the two counts are in the order [1 <= c_k <= c_all], so a
    score is returned and is at most 0 for every count in the range of
    the floats. *)
Theorem get_rel_popularity_rounded (round libm_log : R -> R) :
  rounding_laws round -> log_laws libm_log ->
  (forall c_k c_all : Z,
      1 <= c_k <= c_all -> c_all < float_limit ->
      exists p : R,
        get_rel_popularity round libm_log c_k c_all = Return p
        /\ p = round (libm_log (round (round (IZR c_k) / round (IZR c_all)))
                      / libm_log 2)%R
        /\ (p <= 0)%R)
  /\ (forall c_k c_all : Z,
         1 <= c_k <= c_all -> float_limit <= c_all ->
         get_rel_popularity round libm_log c_k c_all = Raise OverflowError)
  /\ (forall c_k : Z,
         get_rel_popularity round libm_log c_k 0
         = Raise (if float_limit <=? Z.abs c_k then OverflowError
                  else ZeroDivisionError))
  /\ (forall (c_k c_all : Z) (p : R),
         get_rel_popularity exact ln c_k c_all = Return p ->
         Rpower 2 p = (IZR c_k / IZR c_all)%R)
  /\ (forall tokenize mypickle usertweets g t c_k,
         In ((g, t), c_k) (group_counts tokenize mypickle usertweets) ->
         exists c_all : Z,
           dict_getitem String.eqb (dic tokenize usertweets) t = Return c_all
           /\ 1 <= c_k <= c_all
           /\ (c_all < float_limit ->
               exists p : R,
                 get_rel_popularity round libm_log c_k c_all = Return p
                 /\ (p <= 0)%R)).
Proof.
  intros rounding logarithm.
  assert (Hin : forall c_k c_all : Z,
             1 <= c_k <= c_all -> c_all < float_limit ->
             exists p : R,
               get_rel_popularity round libm_log c_k c_all = Return p
               /\ p = score round libm_log c_k c_all
               /\ (p <= 0)%R).
  { intros c_k c_all Hk Hlim.
    destruct (get_rel_popularity_in_range round libm_log rounding
                logarithm c_k c_all Hk Hlim) as [Hret Hle].
    exists (score round libm_log c_k c_all). auto. }
  split; [exact Hin|]. split; [|split; [|split]].
  - intros c_k c_all Hk Hlim.
    apply get_rel_popularity_overflow_all. lia.
  - intros c_k. destruct (Z.leb_spec float_limit (Z.abs c_k)).
    + now apply get_rel_popularity_overflow_k.
    + now apply get_rel_popularity_zero_all.
  - apply exact_score_power.
  - intros tokenize mypickle usertweets g t c_k Hc.
    apply group_counts_In in Hc. destruct Hc as (Htot & Hk & ->).
    pose proof (user_count_le_total tokenize mypickle usertweets g t) as Hle.
    exists (total_count tokenize usertweets t).
    split; [|split; [lia|]].
    + unfold dict_getitem. rewrite dic_lookup.
      destruct (Z.leb_spec 100 (total_count tokenize usertweets t));
        [reflexivity | lia].
    + intros Hlim.
      destruct (Hin (user_count tokenize mypickle usertweets g t)
                    (total_count tokenize usertweets t)) as (p & Hp & _ & Hp0);
        [lia | exact Hlim |].
      exists p. auto.
Qed.

(** 5 mentions of 20, with exact arithmetic: the score is -2. *)
Lemma get_rel_popularity_rounded_witness :
  rounding_laws exact /\ log_laws ln
  /\ get_rel_popularity exact ln 5 20 = Return (-2)%R.
Proof.
  split; [exact exact_rounding|]. split; [exact ln_log_laws|].
  destruct (proj1 (get_rel_popularity_rounded exact ln exact_rounding
                     ln_log_laws) 5 20)
    as (p & Hret & Hp & _); [lia | vm_compute; reflexivity |].
  rewrite Hret, Hp. f_equal. unfold exact.
  replace (5 / 20)%R with (/ (2 * 2))%R by lra.
  rewrite ln_Rinv by lra. rewrite ln_mult by lra.
  pose proof PopularityFacts.ln_2_pos. field. lra.
Defined.

(** The claim as worded fails on the code: the counts [1] and [2^1024]
    are in the order [1 <= c_k <= c_all], and the function raises
    [OverflowError] whatever the rounding and the logarithm are. *)
Lemma get_rel_popularity_overflows :
  (1 <= 1 <= 2 ^ 1024
   /\ forall round libm_log : R -> R,
       get_rel_popularity round libm_log 1 (2 ^ 1024) = Raise OverflowError)
  /\ ~ (forall round libm_log : R -> R,
           rounding_laws round -> log_laws libm_log ->
           forall c_k c_all : Z,
             1 <= c_k <= c_all ->
             exists p : R,
               get_rel_popularity round libm_log c_k c_all = Return p).
Proof.
  assert (H : forall round libm_log : R -> R,
             get_rel_popularity round libm_log 1 (2 ^ 1024)
             = Raise OverflowError).
  { intros round libm_log. apply get_rel_popularity_overflow_all.
    vm_compute. discriminate. }
  split; [split; [vm_compute; split; discriminate | exact H]|].
  intros Hall.
  destruct (Hall exact ln exact_rounding ln_log_laws 1 (2 ^ 1024))
    as (p & Hp); [vm_compute; split; discriminate|].
  rewrite H in Hp. discriminate.
Qed.

End PopularityClaims.

(** ** Counting with [reduceByKey] *)

Module CountingFacts.
Import Py Spark Spec SparkFacts.

Section Totals.
Context {K : Type} (eqb : K -> K -> bool).
Hypothesis eqb_spec : forall a b, reflect (a = b) (eqb a b).
Variable P : K -> bool.

Lemma total_where_cons (k : K) (v : Z) (rdd : list (K * Z)) :
  total_where P ((k, v) :: rdd)
  = (if P k then v else 0) + total_where P rdd.
Proof. unfold total_where. simpl. destruct (P k); reflexivity. Qed.

Lemma total_where_merge (k : K) (v : Z) (acc : list (K * Z)) :
  total_where P (merge_value eqb (fun a b => a + b) k v acc)
  = total_where P acc + (if P k then v else 0).
Proof.
  induction acc as [|[k0 v0] acc IH]; simpl.
  - rewrite total_where_cons. unfold total_where. simpl. lia.
  - destruct (eqb_spec k k0) as [->|Hne].
    + rewrite !total_where_cons. destruct (P k0); lia.
    + rewrite !total_where_cons, IH. lia.
Qed.

Lemma total_where_fold (rdd acc : list (K * Z)) :
  total_where P
    (fold_left (fun a kv => merge_value eqb (fun a b => a + b)
                                        (fst kv) (snd kv) a) rdd acc)
  = total_where P acc + total_where P rdd.
Proof.
  revert acc; induction rdd as [|[k v] rdd IH]; intros acc; simpl.
  - unfold total_where at 3. simpl. lia.
  - rewrite IH, total_where_merge, total_where_cons. simpl. lia.
Qed.

(** [reduceByKey (+)] keeps the sum of the counts of any class of keys. *)
Lemma total_where_reduceByKey (rdd : list (K * Z)) :
  total_where P (reduceByKey eqb (fun a b => a + b) rdd)
  = total_where P rdd.
Proof. unfold reduceByKey. now rewrite total_where_fold. Qed.

Lemma total_where_perm (l l' : list (K * Z)) :
  Permutation l l' -> total_where P l = total_where P l'.
Proof.
  induction 1 as [|[k v] l l' Hp IH|[k v] [k' v'] l|l l' l'' H1 IH1 H2 IH2].
  - reflexivity.
  - rewrite !total_where_cons. lia.
  - rewrite !total_where_cons. lia.
  - congruence.
Qed.

Lemma total_where_ones {A} (kf : A -> K) (l : list A) :
  total_where P (map (fun x => (kf x, 1)) l)
  = Z.of_nat (List.length (filter (fun x => P (kf x)) l)).
Proof.
  induction l as [|x l IH]; [reflexivity|].
  simpl map. rewrite total_where_cons, IH. simpl filter.
  destruct (P (kf x)); simpl List.length; lia.
Qed.
End Totals.

Lemma filter_all {A} (l : list A) : filter (fun _ => true) l = l.
Proof. induction l as [|x l IH]; simpl; congruence. Qed.

(** Sorting changes no lookup. *)
Lemma lookup_sortBy {K V S} (eqb : K -> K -> bool)
      (eqb_spec : forall a b, reflect (a = b) (eqb a b))
      (key : K * V -> S) (leb : S -> S -> bool) (l : list (K * V)) (k : K) :
  NoDup (map fst l) ->
  lookup eqb k (sortBy key leb l) = lookup eqb k l.
Proof.
  intros Hnd.
  rewrite <- (filter_all l) at 1.
  rewrite (PipelineFacts.lookup_sort_filter eqb eqb_spec) by assumption.
  destruct (lookup eqb k l); reflexivity.
Qed.

Lemma count_of_filter (k : string) (l : list string) :
  Z.of_nat (List.length (filter (fun x => String.eqb k x) l)) = count_of k l.
Proof.
  unfold count_of. f_equal.
  induction l as [|x l IH]; simpl; [reflexivity|].
  destruct (String.eqb_spec k x) as [E1|E1];
    destruct (string_dec x k) as [E2|E2]; simpl; congruence.
Qed.

End CountingFacts.

(** ** hw1: the frequency table *)

Module FrequencyFacts.
Import Py HW1 Spec SparkFacts CountingFacts.

Lemma freq_ngramRDD_NoDup (sentences : list string) (n : Z) :
  NoDup (map fst (freq_ngramRDD sentences n)).
Proof.
  unfold freq_ngramRDD.
  eapply Permutation_NoDup;
    [apply Permutation_map; symmetry; apply sortBy_perm|].
  apply NoDup_reduceByKey, String.eqb_spec.
Qed.

Lemma freq_ngramRDD_lookup (sentences : list string) (n : Z) (g : string) :
  lookup String.eqb g (freq_ngramRDD sentences n)
  = if 0 <? count_of g (ngrams sentences n)
    then Some (count_of g (ngrams sentences n)) else None.
Proof.
  unfold freq_ngramRDD, Spark.flatMap. fold (ngrams sentences n).
  rewrite (lookup_sortBy String.eqb String.eqb_spec)
    by apply NoDup_reduceByKey, String.eqb_spec.
  rewrite (PipelineFacts.lookup_count String.eqb String.eqb_spec
             (fun w : string => w)).
  cbv zeta. now rewrite count_of_filter.
Qed.

(** X1. The frequency table of hw1 holds each distinct n-gram once, with
    the number of its occurrences among the n-grams of all sentences (an
    n-gram that does not occur has no record), most frequent first. *)
Theorem freq_ngramRDD_counts (sentences : list string) (n : Z) (g : string) :
  NoDup (map fst (freq_ngramRDD sentences n))
  /\ lookup String.eqb g (freq_ngramRDD sentences n)
     = (if 0 <? count_of g (ngrams sentences n)
        then Some (count_of g (ngrams sentences n)) else None)
  /\ (In g (map fst (freq_ngramRDD sentences n))
      <-> In g (ngrams sentences n))
  /\ StronglySorted (fun a b => snd b <= snd a) (freq_ngramRDD sentences n).
Proof.
  split; [apply freq_ngramRDD_NoDup|].
  split; [apply freq_ngramRDD_lookup|]. split.
  - rewrite <- (contains_In String.eqb String.eqb_spec). unfold contains.
    rewrite freq_ngramRDD_lookup. unfold count_of.
    rewrite (count_occ_In string_dec).
    destruct (Z.ltb_spec 0 (Z.of_nat (count_occ string_dec
                                         (ngrams sentences n) g)));
      split; intros H'; try reflexivity; try discriminate; lia.
  - unfold freq_ngramRDD.
    eapply RankingFacts.sorted_weaken;
      [| apply sortBy_sorted].
    + intros a b H. apply Z.leb_le in H. lia.
    + intros a b. destruct (Z.leb_spec a b); [now left | right].
      apply Z.leb_le. lia.
    + intros a b c H1 H2. apply Z.leb_le in H1, H2. apply Z.leb_le. lia.
Qed.

(** X2. Counting loses nothing: the counts of the table add up to the
    number of n-grams extracted from all sentences, and every count is at
    least 1. *)
Theorem freq_ngramRDD_total (sentences : list string) (n : Z) :
  total (freq_ngramRDD sentences n)
  = Z.of_nat (List.length (ngrams sentences n))
  /\ Forall (fun kv => 1 <= snd kv) (freq_ngramRDD sentences n).
Proof.
  split.
  - unfold total, freq_ngramRDD, Spark.flatMap. fold (ngrams sentences n).
    rewrite (total_where_perm _ _ _ (sortBy_perm _ _ _)).
    rewrite (total_where_reduceByKey String.eqb String.eqb_spec).
    rewrite (total_where_ones (fun _ => true) (fun w : string => w)).
    now rewrite filter_all.
  - apply Forall_forall. intros [g c] Hin.
    apply (In_lookup String.eqb String.eqb_spec) in Hin;
      [|apply freq_ngramRDD_NoDup].
    rewrite freq_ngramRDD_lookup in Hin.
    destruct (Z.ltb_spec 0 (count_of g (ngrams sentences n)));
      [|discriminate].
    inversion Hin. simpl. lia.
Qed.

(** The scenario of the assignment text: the unigrams of the sentence. *)
Example unigram_counts :
  freq_ngramRDD ["To know you is to love you."] 1
  = [("to", 2); ("you", 2); ("know", 1); ("is", 1); ("love", 1)].
Proof. vm_compute. reflexivity. Qed.

End FrequencyFacts.

(** ** hw1: sentences and n-grams *)

Module NgramFacts.
Import Py HW1 Spec.

Lemma window_incl (words : list string) (n : Z) (i : nat) (x : string) :
  In x (window words n i) -> In x words.
Proof.
  unfold window. intros H. apply RankingFacts.firstn_In in H.
  rewrite <- (firstn_skipn i words). apply in_or_app. now right.
Qed.

(** X3. The order 0 is no error: for a segment of [w] words [mysplit]
    returns [w + 1] empty strings. *)
Theorem mysplit_order_zero (sentence : string) :
  mysplit sentence 0 = repeat "" (S (List.length (split sentence))).
Proof.
  unfold mysplit, range. rewrite ExtractorFacts.fold_left_append. simpl app.
  rewrite map_map.
  replace (Z.to_nat (Z.of_nat (List.length (split sentence)) - 0 + 1))
    with (S (List.length (split sentence))) by lia.
  transitivity (map (fun _ : nat => "")
                    (seq 0 (S (List.length (split sentence))))).
  - apply map_ext. intros i.
    unfold slice. rewrite Z.add_0_r, Z.sub_diag. reflexivity.
  - now rewrite map_const, length_seq.
Qed.

Lemma split_from_word (x w rest : string) :
  forall_chars (fun ch => negb (isspace ch)) x = true ->
  split_from w (x ++ rest) = split_from (w ++ x) rest.
Proof.
  revert w; induction x as [|c x IH]; intros w H; simpl.
  - now rewrite NormalizerFacts.append_empty_r.
  - simpl in H. apply andb_true_iff in H. destruct H as [Hc Hx].
    apply negb_true_iff in Hc. rewrite Hc, IH by assumption.
    rewrite NormalizerFacts.append_assoc. reflexivity.
Qed.

Lemma is_word_parts (x : string) :
  is_word x = true ->
  x <> "" /\ forall_chars (fun ch => negb (isspace ch)) x = true.
Proof.
  unfold is_word. intros H. apply andb_true_iff in H. destruct H as [H1 H2].
  split; [|exact H2]. apply negb_true_iff in H1. now apply String.eqb_neq.
Qed.

(** Splitting what [join] made of words gives the words back. *)
Lemma split_join (ws : list string) :
  forallb is_word ws = true -> split (join " " ws) = ws.
Proof.
  unfold split. induction ws as [|x ws IH]; intros H; [reflexivity|].
  simpl in H. apply andb_true_iff in H. destruct H as [Hx Hws].
  apply is_word_parts in Hx. destruct Hx as [Hne Hx].
  apply String.eqb_neq in Hne.
  destruct ws as [|y ws].
  - simpl. rewrite <- (NormalizerFacts.append_empty_r x) at 1.
    rewrite split_from_word by assumption. simpl. now rewrite Hne.
  - change (join " " (x :: y :: ws)) with (x ++ " " ++ join " " (y :: ws)).
    rewrite split_from_word by assumption.
    change ("" ++ x) with x.
    change (" " ++ join " " (y :: ws))
      with (String " " (join " " (y :: ws))).
    simpl split_from at 1. rewrite Hne. f_equal. now apply IH.
Qed.

Lemma forallb_incl {A} (p : A -> bool) (l l' : list A) :
  (forall x, In x l -> In x l') -> forallb p l' = true -> forallb p l = true.
Proof.
  intros Hincl H. apply forallb_forall. intros x Hx.
  eapply forallb_forall in H; [eassumption|]. now apply Hincl.
Qed.

(** X4. For an order [n >= 1], an n-gram splits back into the [n] words
    it was joined from: the i-th n-gram is made of the words [i .. i+n-1]
    of the segment, and none is empty. *)
Theorem mysplit_split_back (sentence : string) (n : Z) :
  1 <= n ->
  map split (mysplit sentence n)
  = map (window (split sentence) n)
        (seq 0 (List.length (mysplit sentence n)))
  /\ Forall (fun g => List.length (split g) = Z.to_nat n /\ g <> "")
            (mysplit sentence n).
Proof.
  intros Hn.
  assert (Hwords := ExtractorFacts.split_from_words sentence "" (or_introl eq_refl)).
  fold (split sentence) in Hwords.
  assert (Hback : forall i, split (join " " (window (split sentence) n i))
                            = window (split sentence) n i).
  { intros i. apply split_join.
    eapply forallb_incl; [|exact Hwords]. intros x. apply window_incl. }
  rewrite (ExtractorFacts.mysplit_map sentence n Hn).
  rewrite length_map, length_seq, map_map. split.
  - apply map_ext. exact Hback.
  - apply Forall_forall. intros g Hg. apply in_map_iff in Hg.
    destruct Hg as (i & <- & Hi). apply in_seq in Hi.
    rewrite Hback.
    assert (Hlen : List.length (window (split sentence) n i) = Z.to_nat n).
    { unfold window. rewrite length_firstn, length_skipn. lia. }
    split; [exact Hlen|].
    intros E. rewrite <- Hback, E in Hlen. simpl in Hlen. lia.
Qed.

Lemma mysplit_split_back_witness :
  1 <= 3
  /\ map split (mysplit "to know  you is" 3)
     = [["to"; "know"; "you"]; ["know"; "you"; "is"]].
Proof.
  split; [lia|].
  destruct (mysplit_split_back "to know  you is" 3 ltac:(lia)) as [H _].
  rewrite H. reflexivity.
Defined.

Lemma split_dot_from_cons2 (s : string) :
  (forall piece, exists x l, split_dot_from piece s = x :: l)
  /\ (forall ch piece, exists x l,
        split_dot_from piece (String ch s) = x :: l).
Proof.
  induction s as [|c s [IH1 IH2]]; split; intros; simpl; eauto.
  destruct (Ascii.eqb ch "." && Ascii.eqb c " "); eauto.
Qed.

Lemma split_dot_from_cons (piece s : string) :
  exists x l, split_dot_from piece s = x :: l.
Proof. apply (proj1 (split_dot_from_cons2 s)). Qed.

Lemma join_cons (sep x : string) (l : list string) :
  l <> [] -> join sep (x :: l) = x ++ sep ++ join sep l.
Proof. destruct l; [contradiction | reflexivity]. Qed.

Lemma join_split_dot_from2 (s : string) :
  (forall piece, join ". " (split_dot_from piece s) = piece ++ s)
  /\ (forall ch piece,
        join ". " (split_dot_from piece (String ch s))
        = piece ++ String ch s).
Proof.
  induction s as [|c s [IH1 IH2]]; split; intros.
  - simpl. now rewrite NormalizerFacts.append_empty_r.
  - simpl. reflexivity.
  - apply IH2.
  - change (split_dot_from piece (String ch (String c s)))
      with (if Ascii.eqb ch "." && Ascii.eqb c " "
            then piece :: split_dot_from "" s
            else split_dot_from (piece ++ String ch "") (String c s)).
    destruct (Ascii.eqb_spec ch "."); destruct (Ascii.eqb_spec c " ");
      simpl andb; cbv iota; subst;
      try (rewrite IH2, NormalizerFacts.append_assoc; reflexivity).
    destruct (split_dot_from_cons "" s) as (x & l & E).
    rewrite join_cons by (rewrite E; discriminate).
    rewrite IH1. reflexivity.
Qed.

Lemma join_split_dot_from (s piece : string) :
  join ". " (split_dot_from piece s) = piece ++ s.
Proof. apply (proj1 (join_split_dot_from2 s)). Qed.

(** X6. Splitting a paragraph at the separator [. ] loses nothing but
    the separators: the pieces, joined with the separator, are the
    paragraph; there is always at least one piece. *)
Theorem split_dot_join (x : string) :
  join ". " (split_dot x) = x /\ split_dot x <> [].
Proof.
  split.
  - unfold split_dot. now rewrite join_split_dot_from.
  - unfold split_dot. destruct (split_dot_from_cons "" x) as (y & l & ->).
    discriminate.
Qed.

Example split_dot_sample :
  split_dot "Call me Ishmael. Some years ago.. never mind. "
  = ["Call me Ishmael"; "Some years ago."; "never mind"; ""].
Proof. reflexivity. Qed.

End NgramFacts.

(** ** hw2: when the parsing stage returns *)

Module ParseOutcomeFacts.
Import Py HW2 Spec.

Section Parse.
Variable ujson_loads : string -> result json.

(** A line that is neither skippable nor complete aborts the job. *)
Lemma bad_line_raises (x : string) :
  skippable (ujson_loads x) = false -> complete (ujson_loads x) = false ->
  exists e,
    (objs <- safe_parse ujson_loads x ;; mapM user_text objs)%py = Raise e.
Proof.
  unfold skippable, complete, pair_of, safe_parse.
  destruct (ujson_loads x) as [j|e].
  - destruct j; intros Hs Hc; simpl; eauto.
    rewrite ParseFacts.mem_contains.
    apply negb_false_iff in Hs. rewrite Hs. simpl.
    unfold contains in Hs. unfold user_text, subscript, dict_getitem.
    destruct (lookup String.eqb "user" items) as [u|]; [|discriminate].
    simpl. destruct u; simpl; eauto.
    destruct (lookup String.eqb "id_str" items0) as [i|]; simpl; eauto.
    destruct (lookup String.eqb "text" items) as [t|]; simpl; eauto.
    discriminate.
  - destruct e; intros Hs Hc; try discriminate; simpl; eauto.
Qed.

(** X7. The parsing stage returns normally exactly when every line is
    not JSON, or a JSON object without [user], or a JSON object whose
    [user] is an object with [id_str] and which has [text]; any other
    line (a JSON number or list, a user that is no object, a missing
    [id_str] or [text]) aborts the job. *)
Theorem usertweets_returns (contents : list string) :
  returns (usertweets ujson_loads contents)
  = forallb (fun x => skippable (ujson_loads x) || complete (ujson_loads x))
            contents.
Proof.
  induction contents as [|x rest IH]; [reflexivity|].
  simpl forallb. simpl usertweets.
  destruct (skippable (ujson_loads x)) eqn:Hs.
  - rewrite (ParseFacts.safe_parse_skippable _ x Hs). simpl.
    rewrite <- IH. destruct (usertweets ujson_loads rest); reflexivity.
  - destruct (complete (ujson_loads x)) eqn:Hc.
    + unfold complete in Hc.
      destruct (pair_of (ujson_loads x)) as [p|] eqn:Hp; [|discriminate].
      assert (H := ParseFacts.safe_parse_complete _ x p Hp).
      destruct (safe_parse ujson_loads x) as [objs|e]; [|discriminate].
      simpl in H |- *. rewrite H. simpl.
      rewrite <- IH. destruct (usertweets ujson_loads rest); reflexivity.
    + destruct (bad_line_raises x Hs Hc) as [e He].
      destruct (safe_parse ujson_loads x) as [objs|e']; [|reflexivity].
      simpl in He |- *. rewrite He. reflexivity.
Qed.
End Parse.

(** A number is JSON but no tweet: its line aborts the job. *)
Example number_line_raises :
  usertweets (fun _ => Return (JInt 5)) ["5"] = Raise AttributeError.
Proof. reflexivity. Qed.

End ParseOutcomeFacts.

(** ** hw2: the tokenizer's decoding and case folding *)

Module TokenizeFacts.
Import Py Re HW2.Tokenizer.

Lemma is_ascii_app (a b : string) :
  is_ascii (a ++ b) = is_ascii a && is_ascii b.
Proof.
  induction a as [|c a IH]; simpl; [reflexivity|].
  now rewrite IH, andb_assoc.
Qed.

Lemma escape_char_ascii (ch : ascii) : is_ascii (escape_char ch) = true.
Proof. destruct ch as [[] [] [] [] [] [] [] []]; vm_compute; reflexivity. Qed.

Lemma string_escape_ascii (s : string) : is_ascii (string_escape s) = true.
Proof.
  induction s as [|c s IH]; simpl; [reflexivity|].
  now rewrite is_ascii_app, escape_char_ascii, IH.
Qed.

(** X8. Decoding cannot fail twice: whatever bytes come in, what
    [tokenize] hands on after the [try] is ASCII text, so the second
    [unicode(s)] cannot raise; and decoding it again changes nothing. *)
Theorem to_unicode_ascii (s : string) :
  is_ascii (to_unicode s) = true
  /\ to_unicode (to_unicode s) = to_unicode s.
Proof.
  assert (H : is_ascii (to_unicode s) = true).
  { unfold to_unicode. destruct (is_ascii s) eqn:E; [exact E|].
    apply string_escape_ascii. }
  split; [exact H|].
  unfold to_unicode at 1. now rewrite H.
Qed.

Example to_unicode_escapes :
  to_unicode (String (ascii_of_nat 226) (String (ascii_of_nat 128) "!"))
  = "\xe2\x80!".
Proof. reflexivity. Qed.

Example url_keeps_case :
  tokenize (fun s => s) false "Read HTTP://T.CO/AbC Now"
  = ["read"; "HTTP://T.CO/AbC"; "now"].
Proof. vm_compute. reflexivity. Qed.

End TokenizeFacts.

(** ** hw2: the outcomes of [get_rel_popularity] *)

Module ScoreFacts.
Import Py HW2 Spec FloatFacts.

(** X10. The outcome of [get_rel_popularity] for all integer counts: a
    count too large for a float raises [OverflowError]; otherwise a
    global count of 0 raises [ZeroDivisionError]; otherwise a count of 0
    in the group, or counts of opposite signs, raise [ValueError] in
    [math.log]; and counts of the same sign return the rounded quotient
    of the logarithms. *)
Theorem get_rel_popularity_outcome (round libm_log : R -> R)
        (c_k c_all : Z) :
  rounding_laws round -> log_laws libm_log ->
  get_rel_popularity round libm_log c_k c_all
  = if (float_limit <=? Z.abs c_k) || (float_limit <=? Z.abs c_all)
    then Raise OverflowError
    else if c_all =? 0 then Raise ZeroDivisionError
    else if c_k * c_all <=? 0 then Raise ValueError
    else Return (round (libm_log (round (round (IZR c_k)
                                         / round (IZR c_all)))
                        / libm_log 2)%R).
Proof.
  intros rounding logarithm.
  destruct (Z.leb_spec float_limit (Z.abs c_k)) as [Hk|Hk];
    [now apply get_rel_popularity_overflow_k|].
  destruct (Z.leb_spec float_limit (Z.abs c_all)) as [Hall|Hall];
    [now apply get_rel_popularity_overflow_all|].
  cbn [orb].
  destruct (Z.eqb_spec c_all 0) as [->|Hnz];
    [now apply get_rel_popularity_zero_all|].
  destruct (Z.leb_spec (c_k * c_all) 0) as [Hs|Hs].
  - now apply get_rel_popularity_domain.
  - now apply get_rel_popularity_same_sign.
Qed.

Lemma get_rel_popularity_outcome_witness :
  rounding_laws exact /\ log_laws ln
  /\ get_rel_popularity exact ln 0 20 = Raise ValueError
  /\ get_rel_popularity exact ln 5 0 = Raise ZeroDivisionError
  /\ get_rel_popularity exact ln (2 ^ 1024) 20 = Raise OverflowError.
Proof.
  pose proof (fun c_k c_all =>
                get_rel_popularity_outcome exact ln c_k c_all
                  exact_rounding ln_log_laws) as H.
  split; [exact exact_rounding|]. split; [exact ln_log_laws|].
  split; [|split]; rewrite H; vm_compute; reflexivity.
Defined.

End ScoreFacts.

(** ** hw2: posts per group *)

Module PostsFacts.
Import Py HW2 Spec SparkFacts CountingFacts.

Lemma Z_eqb_spec (a b : Z) : reflect (a = b) (a =? b).
Proof. apply Z.eqb_spec. Qed.

Lemma help1_help4 (mypickle : list (string * Z)) (x : string * string) :
  help1 mypickle x = (help4 mypickle (fst x), 1).
Proof.
  unfold help1, help4.
  destruct (contains String.eqb mypickle (fst x)); [|reflexivity].
  destruct (lookup String.eqb (fst x) mypickle); reflexivity.
Qed.

Lemma for_each_print {A} (line : A -> string) (l : list A)
      (out : list string) :
  snd (for_each l (fun x => print (line x)) out) = Return tt
  /\ List.length (fst (for_each l (fun x => print (line x)) out))
     = (List.length out + List.length l)%nat.
Proof.
  revert out; induction l as [|x l IH]; intros out.
  - simpl. split; [reflexivity | lia].
  - change (for_each (x :: l) (fun x => print (line x)) out)
      with (for_each l (fun x => print (line x)) (out ++ [line x])%list).
    destruct (IH (out ++ [line x])%list) as [H1 H2].
    split; [exact H1|]. rewrite H2, length_app. simpl. lia.
Qed.

Lemma print_post_count_lines (counts : list (Z * Z)) (out : list string) :
  snd (print_post_count counts out) = Return tt
  /\ List.length (fst (print_post_count counts out))
     = (List.length out + List.length counts)%nat.
Proof. apply for_each_print. Qed.

Section Posts.
Variable mypickle : list (string * Z).
Variable usertweets : list (string * string).

Lemma result_unsorted_NoDup :
  NoDup (map fst (Spark.reduceByKey Z.eqb (fun a b => a + b)
                    (map (fun x => help1 mypickle x) usertweets))).
Proof. apply NoDup_reduceByKey, Z_eqb_spec. Qed.

Lemma result_lookup (g : Z) :
  lookup Z.eqb g (result' mypickle usertweets)
  = if 0 <? posts_of mypickle usertweets g
    then Some (posts_of mypickle usertweets g) else None.
Proof.
  unfold result'.
  rewrite (lookup_sortBy Z.eqb Z_eqb_spec) by apply result_unsorted_NoDup.
  rewrite (map_ext _ (fun x => (help4 mypickle (fst x), 1)))
    by apply help1_help4.
  rewrite (PipelineFacts.lookup_count Z.eqb Z_eqb_spec
             (fun x : string * string => help4 mypickle (fst x))).
  cbv zeta. unfold posts_of.
  rewrite (filter_ext (fun x => g =? help4 mypickle (fst x))
                      (fun x => help4 mypickle (fst x) =? g))
    by (intros; apply Z.eqb_sym).
  reflexivity.
Qed.

(** X12. The post counts: a group has a record exactly when one of its
    users has a tweet, and the record holds the number of tweets of the
    group's users, users outside the partition counting for group 7; the
    records are in ascending order of the group, one per group; the
    counts add up to the number of tweets; and [print_post_count] prints
    one line per record and returns. *)
Theorem result_counts (g : Z) (out : list string) :
  lookup Z.eqb g (result' mypickle usertweets)
  = (if 0 <? posts_of mypickle usertweets g
     then Some (posts_of mypickle usertweets g) else None)
  /\ NoDup (map fst (result' mypickle usertweets))
  /\ StronglySorted (fun a b => fst a <= fst b) (result' mypickle usertweets)
  /\ total (result' mypickle usertweets)
     = Z.of_nat (List.length usertweets)
  /\ snd (print_post_count (result' mypickle usertweets) out) = Return tt
  /\ List.length (fst (print_post_count (result' mypickle usertweets) out))
     = (List.length out + List.length (result' mypickle usertweets))%nat.
Proof.
  split; [apply result_lookup|]. split; [|split; [|split]].
  - unfold result'.
    eapply Permutation_NoDup;
      [apply Permutation_map; symmetry; apply sortBy_perm|].
    apply result_unsorted_NoDup.
  - unfold result'.
    eapply RankingFacts.sorted_weaken; [| apply sortBy_sorted].
    + intros a b H. now apply Z.leb_le.
    + intros a b. destruct (Z.leb_spec a b); [now left | right].
      apply Z.leb_le. lia.
    + intros a b c H1 H2. apply Z.leb_le in H1, H2. apply Z.leb_le. lia.
  - unfold total, result'.
    rewrite (total_where_perm _ _ _ (sortBy_perm _ _ _)).
    rewrite (total_where_reduceByKey Z.eqb Z_eqb_spec).
    rewrite (map_ext _ (fun x => (help4 mypickle (fst x), 1)))
      by apply help1_help4.
    rewrite (total_where_ones (fun _ => true)
               (fun x : string * string => help4 mypickle (fst x))).
    now rewrite filter_all.
  - apply print_post_count_lines.
Qed.
End Posts.

Example posts_of_two_groups :
  result' [("a", 3); ("b", 0)]
          [("a", "x"); ("c", "y"); ("b", "z"); ("a", "w"); ("d", "v")]
  = [(0, 1); (3, 2); (7, 2)].
Proof. reflexivity. Qed.

End PostsFacts.

(** ** hw2: token sets, token counts and groups *)

Module TokenCountFacts.
Import Py HW2 Spec SparkFacts CountingFacts PipelineFacts.

(** X13. [inter_usertweets] holds one record per user that has a tweet;
    the record of a user holds, each once, exactly the tokens of the
    user's tweets. *)
Theorem inter_usertweets_sets (tokenize : string -> list string)
        (usertweets : list (string * string)) :
  NoDup (map fst (inter_usertweets tokenize usertweets))
  /\ Permutation (map fst (inter_usertweets tokenize usertweets))
                 (users usertweets)
  /\ Forall (fun us =>
               NoDup (snd us)
               /\ forall t, In t (snd us)
                            <-> mentions tokenize usertweets (fst us) t = true)
            (inter_usertweets tokenize usertweets).
Proof.
  split; [apply inter_NoDup|]. split.
  - apply NoDup_Permutation;
      [apply inter_NoDup | apply NoDup_nodup |].
    intros u. rewrite inter_keys. unfold users. now rewrite nodup_In.
  - apply Forall_forall. intros [u s] Hin. simpl.
    now apply inter_spec.
Qed.

Lemma tokens_In (tokenize : string -> list string)
      (usertweets : list (string * string)) (t : string) (c : Z) :
  In (t, c) (tokens tokenize usertweets)
  -> 100 <= c /\ c = total_count tokenize usertweets t.
Proof.
  intros H.
  assert (Hnd : NoDup (map fst (tokens tokenize usertweets))).
  { unfold tokens.
    eapply Permutation_NoDup;
      [apply Permutation_map; symmetry; apply sortBy_perm|].
    apply NoDup_keys_filter, NoDup_reduceByKey, String.eqb_spec. }
  apply (In_lookup String.eqb String.eqb_spec _ _ _ Hnd) in H.
  pose proof (dic_lookup tokenize usertweets t) as Hd.
  unfold dic, Spark.collectAsMap in Hd. rewrite Hd in H.
  destruct (Z.leb_spec 100 (total_count tokenize usertweets t));
    [|discriminate].
  inversion H. lia.
Qed.

Lemma filter_length_le {A} (p : A -> bool) (l : list A) :
  (List.length (filter p l) <= List.length l)%nat.
Proof.
  induction l as [|x l IH]; simpl; [lia|]. destruct (p x); simpl; lia.
Qed.

(** X14. [tokens] holds each token once, most mentioned first; every
    count in it is at least 100 and at most the number of users. *)
Theorem tokens_sorted (tokenize : string -> list string)
        (usertweets : list (string * string)) :
  NoDup (map fst (tokens tokenize usertweets))
  /\ StronglySorted (fun a b => snd b <= snd a) (tokens tokenize usertweets)
  /\ Forall (fun kv => 100 <= snd kv
                       <= Z.of_nat (List.length (users usertweets)))
            (tokens tokenize usertweets).
Proof.
  split; [|split].
  - unfold tokens.
    eapply Permutation_NoDup;
      [apply Permutation_map; symmetry; apply sortBy_perm|].
    apply NoDup_keys_filter, NoDup_reduceByKey, String.eqb_spec.
  - unfold tokens.
    eapply RankingFacts.sorted_weaken; [| apply sortBy_sorted].
    + intros a b H. now apply Z.leb_le.
    + intros a b. destruct (Z.leb_spec b a); [now left | right].
      apply Z.leb_le. lia.
    + intros a b c H1 H2. apply Z.leb_le in H1, H2. apply Z.leb_le. lia.
  - apply Forall_forall. intros [t c] Hin. apply tokens_In in Hin.
    destruct Hin as [H100 ->]. simpl. split; [exact H100|].
    rewrite total_count_length. apply inj_le, filter_length_le.
Qed.

(** X15. The mentions of a token in the groups add up to its global
    count: for a token of [dic] the counts of its (group, token) records
    sum to [dic]'s count, and a token outside [dic] has no record. *)
Theorem group_counts_total (tokenize : string -> list string)
        (mypickle : list (string * Z)) (usertweets : list (string * string))
        (t : string) :
  total_where (fun k => String.eqb t (snd k))
              (group_counts tokenize mypickle usertweets)
  = match lookup String.eqb t (dic tokenize usertweets) with
    | Some c_all => c_all
    | None => 0
    end.
Proof.
  rewrite dic_lookup.
  unfold group_counts. cbv zeta.
  rewrite (total_where_reduceByKey group_token_eqb group_token_eqb_spec).
  rewrite (total_where_ones (fun k => String.eqb t (snd k))
             (fun x : string * string => (help4 mypickle (fst x), snd x))).
  rewrite filter_twice. simpl snd.
  pose (p := fun _ : string => 100 <=? total_count tokenize usertweets t).
  rewrite (filter_ext _ (fun x => p (fst x) && String.eqb t (snd x))).
  2:{ intros [u t']. unfold p. simpl.
      destruct (String.eqb_spec t t') as [<-|];
        [|now rewrite !andb_false_r].
      now rewrite dic_contains. }
  rewrite (count_pairs tokenize usertweets p t). unfold p.
  destruct (100 <=? total_count tokenize usertweets t); simpl.
  - now rewrite total_count_length.
  - assert (H : forall l : list string, filter (fun _ => false) l = [])
      by (induction l; auto).
    now rewrite H.
Qed.

End TokenCountFacts.

(** ** hw2: the partitions and the order of a ranking *)

Module PartitionFacts.
Import Py HW2 Spec SparkFacts CountingFacts PipelineFacts.

Lemma help4_range (mypickle : list (string * Z)) (u : string) :
  groups_0_to_6 mypickle = true -> 0 <= help4 mypickle u <= 7.
Proof.
  intros H. unfold help4.
  destruct (contains String.eqb mypickle u); [|lia].
  destruct (lookup String.eqb u mypickle) as [g|] eqn:E; [|lia].
  apply (lookup_In String.eqb String.eqb_spec) in E.
  unfold groups_0_to_6 in H.
  eapply forallb_forall in H; [|exact E]. simpl in H. lia.
Qed.

Lemma group_counts_group (tokenize : string -> list string)
      (mypickle : list (string * Z)) (usertweets : list (string * string))
      (g : Z) (t : string) (c : Z) :
  In ((g, t), c) (group_counts tokenize mypickle usertweets) ->
  exists u, g = help4 mypickle u.
Proof.
  intros H. apply (in_map fst) in H. simpl in H.
  unfold group_counts in H. cbv zeta in H.
  apply (keys_reduceByKey group_token_eqb group_token_eqb_spec) in H.
  rewrite map_map in H. apply in_map_iff in H.
  destruct H as ([u t'] & E & _). simpl in E. inversion E. eauto.
Qed.

(** Records with distinct keys keep distinct keys when some are dropped. *)
Lemma distinct_keys_kept {A B} (key : A -> B) (keep : A -> bool)
      (rdd : list A) (Hnd : NoDup (map key rdd)) :
  NoDup (map key (filter keep rdd)).
Proof.
  induction rdd as [|x rdd IH]; simpl; [constructor|].
  simpl in Hnd. inversion Hnd as [|? ? Hnotin Hnd']; subst.
  destruct (keep x); simpl; [|auto].
  constructor; [|auto].
  intros Hin. apply Hnotin. apply in_map_iff in Hin.
  destruct Hin as (y & E & Hy). apply filter_In in Hy.
  apply in_map_iff. exists y. tauto.
Qed.

Lemma NoDup_firstn {A} (n : nat) (l : list A) :
  NoDup l -> NoDup (firstn n l).
Proof.
  intros H. rewrite <- (firstn_skipn n l) in H.
  now apply NoDup_app_remove_r in H.
Qed.

Section Partitions.
Variable tokenize : string -> list string.
Variable mypickle : list (string * Z).
Variable usertweets : list (string * string).
Hypothesis groups : groups_0_to_6 mypickle = true.

Lemma partition_group (i : Z) (x : Z * (string * R)) :
  0 <= i < 8 ->
  In x (nth (Z.to_nat i) (partitions tokenize mypickle usertweets) []) ->
  fst x = i.
Proof.
  intros Hi Hin. unfold partitions in Hin.
  rewrite nth_glom in Hin by exact Hi.
  apply filter_In in Hin. destruct Hin as [Hin Hhash].
  apply in_map_iff in Hin. destruct Hin as ([[g t] c] & <- & Hin).
  apply group_counts_group in Hin. destruct Hin as [u ->].
  unfold scored in *. simpl in *.
  pose proof (help4_range mypickle u groups) as Hr.
  unfold Spark.portable_hash in Hhash.
  destruct (Z.eqb_spec (help4 mypickle u) (-1)); [lia|].
  apply Z.eqb_eq in Hhash. rewrite Z.mod_small in Hhash by lia.
  exact Hhash.
Qed.

Lemma partition_tokens_NoDup (i : Z) :
  0 <= i < 8 ->
  NoDup (map token_of
             (nth (Z.to_nat i) (partitions tokenize mypickle usertweets) [])).
Proof.
  intros Hi.
  assert (Hkeys : NoDup (map (fun x : Z * (string * R) =>
                                (fst x, token_of x))
                     (nth (Z.to_nat i)
                          (partitions tokenize mypickle usertweets) []))).
  { unfold partitions. rewrite nth_glom by exact Hi.
    apply distinct_keys_kept. rewrite map_map.
    rewrite (map_ext _ fst); [apply group_counts_NoDup|].
    intros [[g t] c]. reflexivity. }
  rewrite (map_ext_in _ (fun x => (i, token_of x))) in Hkeys.
  - rewrite <- (map_map token_of (fun t => (i, t))) in Hkeys.
    now apply NoDup_map_inv in Hkeys.
  - intros x Hx. f_equal. now apply partition_group.
Qed.
End Partitions.

Lemma glom_length {V} (rdd : list (Z * V)) :
  List.length (Spark.glom_partitionBy 8 rdd) = 8%nat.
Proof. unfold Spark.glom_partitionBy. now rewrite length_map. Qed.

Lemma hash_group (i : Z) : 0 <= i < 8 -> Spark.portable_hash i mod 8 = i.
Proof.
  intros H. unfold Spark.portable_hash.
  destruct (Z.eqb_spec i (-1)); [lia|]. apply Z.mod_small. lia.
Qed.

Section Groups.
Variable tokenize : string -> list string.
Variable mypickle : list (string * Z).
Variable usertweets : list (string * string).
Hypothesis groups : groups_0_to_6 mypickle = true.

Let records : list (Z * (string * R)) :=
  map (scored tokenize usertweets)
      (group_counts tokenize mypickle usertweets).

Lemma records_group (x : Z * (string * R)) :
  In x records -> 0 <= fst x < 8.
Proof.
  intros Hin. apply in_map_iff in Hin.
  destruct Hin as ([[g t] c] & <- & Hin).
  apply group_counts_group in Hin. destruct Hin as [u ->].
  pose proof (help4_range mypickle u groups). simpl. lia.
Qed.

(** The list of group [i] is what is left of the records when those of
    the other groups are dropped. *)
Lemma partition_filter (i : Z) :
  0 <= i < 8 ->
  nth (Z.to_nat i) (partitions tokenize mypickle usertweets) []
  = filter (fun x => fst x =? i) records.
Proof.
  intros Hi. unfold partitions. rewrite nth_glom by exact Hi.
  apply filter_ext_in. intros x Hx.
  now rewrite hash_group by (now apply records_group).
Qed.

Lemma partition_tokens (i : Z) (t : string) :
  0 <= i < 8 ->
  In t (map token_of
            (nth (Z.to_nat i) (partitions tokenize mypickle usertweets) []))
  <-> 100 <= total_count tokenize usertweets t
      /\ 1 <= user_count tokenize mypickle usertweets i t.
Proof.
  intros Hi. split.
  - intros Hin. apply in_map_iff in Hin.
    destruct Hin as ([g [t' p]] & E & Hin). unfold token_of in E.
    simpl in E. subst t'.
    assert (g = i)
      by (apply (partition_group tokenize mypickle usertweets groups i _ Hi)
            in Hin; exact Hin).
    subst g. now apply parts_In in Hin.
  - intros [Htot Hk].
    destruct (parts_has tokenize mypickle usertweets i t Htot Hk) as [p Hp].
    rewrite hash_group in Hp by exact Hi.
    apply in_map_iff. exists (i, (t, p)). split; [reflexivity | exact Hp].
Qed.
End Groups.

(** X16. When the group ids of the users partition are 0 to 6,
    [interresults] returns 8 lists, and the list number [i] holds the
    records of group [i], all of them and no other, in the order of the
    records: a token has a record there exactly when it passes the
    threshold and a user of group [i] mentions it, and it has one
    record only, so no token is printed twice for a group. *)
Theorem partitions_by_group (tokenize : string -> list string)
        (mypickle : list (string * Z)) (usertweets : list (string * string)) :
  groups_0_to_6 mypickle = true ->
  let records := map (scored tokenize usertweets)
                     (group_counts tokenize mypickle usertweets) in
  exists parts : list (list (Z * (string * R))),
    interresults tokenize mypickle usertweets = Return parts
    /\ List.length parts = 8%nat
    /\ (forall x, In x records -> In x (nth (Z.to_nat (fst x)) parts []))
    /\ Forall (fun i =>
                 let part := nth (Z.to_nat i) parts [] in
                 part = filter (fun x => fst x =? i) records
                 /\ (forall t : string,
                        In t (map token_of part)
                        <-> 100 <= total_count tokenize usertweets t
                            /\ 1 <= user_count tokenize mypickle usertweets
                                               i t)
                 /\ NoDup (map token_of part)
                 /\ NoDup (map fst (top10 part)))
              (range 8).
Proof.
  intros groups records.
  exists (partitions tokenize mypickle usertweets).
  split; [apply interresults_returns|].
  split; [apply glom_length|]. split.
  - intros x Hx.
    pose proof (records_group tokenize mypickle usertweets groups x Hx) as Hr.
    rewrite (partition_filter tokenize mypickle usertweets groups) by exact Hr.
    apply filter_In. split; [exact Hx | apply Z.eqb_refl].
  - apply Forall_forall. intros i Hi.
    assert (Hr : 0 <= i < 8).
    { unfold range in Hi. apply in_map_iff in Hi.
      destruct Hi as (k & <- & Hk). apply in_seq in Hk. simpl in Hk. lia. }
    cbv zeta. split; [|split; [|split]].
    + now apply partition_filter.
    + intros t. now apply partition_tokens.
    + now apply partition_tokens_NoDup.
    + unfold top10, Spark.take. rewrite <- firstn_map. apply NoDup_firstn.
      eapply Permutation_NoDup;
        [apply Permutation_map; symmetry; apply temp_perm|].
      rewrite map_map.
      now apply partition_tokens_NoDup.
Qed.

(** User [0] is of group 3 and the other 99 users of group 7: the token
    has a record in the lists 3 and 7 and in no other. *)
Lemma partitions_by_group_witness :
  groups_0_to_6 [("0", 3)] = true
  /\ exists parts : list (list (Z * (string * R))),
      interresults tok [("0", 3)] (one_tweet_each 100) = Return parts
      /\ map (fun part => map token_of part) parts
         = [[]; []; []; ["maga"]; []; []; []; ["maga"]].
Proof.
  split; [reflexivity|].
  destruct (partitions_by_group tok [("0", 3)] (one_tweet_each 100) eq_refl)
    as (parts & Hret & Hlen & _ & Hparts).
  exists parts. split; [exact Hret|].
  rewrite Forall_forall in Hparts.
  assert (Egc : group_counts tok [("0", 3)] (one_tweet_each 100)
                = [((3, "maga"), 1); ((7, "maga"), 99)])
    by (vm_compute; reflexivity).
  assert (Hi : forall i, In i (range 8) ->
               map token_of (nth (Z.to_nat i) parts [])
               = map token_of
                   (filter (fun x : Z * (string * R) => fst x =? i)
                      (map (scored tok (one_tweet_each 100))
                           [((3, "maga"), 1); ((7, "maga"), 99)]))).
  { intros i Hin. destruct (Hparts i Hin) as (E & _).
    rewrite E, Egc. reflexivity. }
  do 9 (destruct parts as [|? parts]; try discriminate Hlen).
  cbn [map]. repeat f_equal.
  - exact (Hi 0 ltac:(vm_compute; tauto)).
  - exact (Hi 1 ltac:(vm_compute; tauto)).
  - exact (Hi 2 ltac:(vm_compute; tauto)).
  - exact (Hi 3 ltac:(vm_compute; tauto)).
  - exact (Hi 4 ltac:(vm_compute; tauto)).
  - exact (Hi 5 ltac:(vm_compute; tauto)).
  - exact (Hi 6 ltac:(vm_compute; tauto)).
  - exact (Hi 7 ltac:(vm_compute; tauto)).
Defined.

Lemma ranks_before_antisym (a b : string * R) :
  ranks_before a b -> ranks_before b a -> a = b.
Proof.
  unfold ranks_before. destruct a as [ta sa], b as [tb sb]. simpl.
  intros [H1|[E1 L1]] [H2|[E2 L2]]; try lra.
  f_equal; [now apply String.leb_antisym | exact E1].
Qed.

Lemma sorted_unique {A} (R : A -> A -> Prop) (l l' : list A) :
  (forall a b, R a b -> R b a -> a = b) ->
  StronglySorted R l -> StronglySorted R l' -> Permutation l l' -> l = l'.
Proof.
  intros Hanti Hl; revert l'.
  induction Hl as [|x l Hs IH Hall]; intros l' Hl' Hp.
  - now apply Permutation_nil in Hp.
  - destruct Hl' as [|y l' Hs' Hall'].
    + symmetry in Hp. now apply Permutation_nil in Hp.
    + assert (E : x = y).
      { assert (Hx : In x (y :: l'))
          by (eapply Permutation_in; [exact Hp | now left]).
        assert (Hy : In y (x :: l))
          by (eapply Permutation_in; [symmetry; exact Hp | now left]).
        destruct Hx as [Hx|Hx]; [now symmetry|].
        destruct Hy as [Hy|Hy]; [exact Hy|].
        apply Hanti.
        - eapply Forall_forall in Hall; eassumption.
        - eapply Forall_forall in Hall'; eassumption. }
      subst y. f_equal. apply IH; [exact Hs'|].
      now apply Permutation_cons_inv in Hp.
Qed.

(** X17. The ranking of a group does not depend on the order in which
    Spark delivers its records: two lists with the same records give the
    same [temp], hence the same top 10. *)
Theorem temp_order_independent (part part' : list (Z * (string * R))) :
  Permutation (map snd part) (map snd part') ->
  temp part = temp part' /\ top10 part = top10 part'.
Proof.
  intros Hp.
  assert (E : temp part = temp part').
  { apply (sorted_unique ranks_before).
    - apply ranks_before_antisym.
    - apply RankingFacts.temp_sorted.
    - apply RankingFacts.temp_sorted.
    - rewrite (temp_perm part), (temp_perm part'). exact Hp. }
  split; [exact E|]. unfold top10. now rewrite E.
Qed.

Lemma temp_order_independent_witness :
  Permutation (map snd [(0, ("b", (-1)%R)); (0, ("a", (-1)%R))])
              (map snd [(0, ("a", (-1)%R)); (0, ("b", (-1)%R))])
  /\ temp [(0, ("b", (-1)%R)); (0, ("a", (-1)%R))]
     = temp [(0, ("a", (-1)%R)); (0, ("b", (-1)%R))].
Proof.
  assert (Hp : Permutation
                 (map snd [(0, ("b", (-1)%R)); (0, ("a", (-1)%R))])
                 (map snd [(0, ("a", (-1)%R)); (0, ("b", (-1)%R))]))
    by apply perm_swap.
  split; [exact Hp|].
  exact (proj1 (temp_order_independent _ _ Hp)).
Defined.

End PartitionFacts.

(** ** hw2: [largest10] *)

Module Largest10Facts.
Import Py HW2 Spec SparkFacts.

Lemma getitem_nat {A} (l : list A) (i : nat) :
  getitem l (Z.of_nat i)
  = match nth_error l i with
    | Some x => Return x
    | None => Raise IndexError
    end.
Proof.
  unfold getitem. cbv zeta.
  assert (E0 : (Z.of_nat i <? 0) = false) by (apply Z.ltb_ge; lia).
  rewrite E0. cbv iota. rewrite E0. cbn [orb].
  destruct (Z.leb_spec (Z.of_nat (List.length l)) (Z.of_nat i)).
  - assert (E : nth_error l i = None) by (apply nth_error_None; lia).
    now rewrite E.
  - rewrite Nat2Z.id. reflexivity.
Qed.

Lemma skipn_nth_error {A} (l : list A) (n : nat) (x : A) :
  nth_error l n = Some x -> skipn n l = x :: skipn (S n) l.
Proof.
  revert n; induction l as [|y l IH]; intros [|n] H; simpl in *;
    try discriminate.
  - now inversion H.
  - now apply IH.
Qed.

Lemma append_items_spec (B : list (Z * (string * R))) (k start : nat)
      (res : list (string * R)) :
  (start <= List.length B)%nat ->
  append_items B (map Z.of_nat (seq start k)) res
  = if (start + k <=? List.length B)%nat
    then Return (res ++ map snd (firstn k (skipn start B)))%list
    else Raise IndexError.
Proof.
  revert start res; induction k as [|k IH]; intros start res Hs.
  - simpl. rewrite Nat.add_0_r.
    destruct (Nat.leb_spec start (List.length B)); [|lia].
    now rewrite app_nil_r.
  - simpl map. simpl append_items. rewrite getitem_nat.
    destruct (nth_error B start) as [b|] eqn:E.
    + assert (Hlt : (start < List.length B)%nat)
        by (apply nth_error_Some; congruence).
      simpl. rewrite IH by lia.
      replace (S start + k)%nat with (start + S k)%nat by lia.
      destruct (start + S k <=? List.length B)%nat; [|reflexivity].
      rewrite (skipn_nth_error B start b E). simpl.
      now rewrite <- app_assoc.
    + apply nth_error_None in E. simpl.
      destruct (Nat.leb_spec (start + S k) (List.length B)); [lia|].
      reflexivity.
Qed.

Lemma Rge_leb_total (a b : R) :
  (if Rle_dec b a then true else false) = true
  \/ (if Rle_dec a b then true else false) = true.
Proof.
  destruct (Rle_dec b a); [now left | right].
  destruct (Rle_dec a b); [reflexivity | lra].
Qed.

Lemma Rge_leb_trans (a b c : R) :
  (if Rle_dec b a then true else false) = true ->
  (if Rle_dec c b then true else false) = true ->
  (if Rle_dec c a then true else false) = true.
Proof.
  destruct (Rle_dec b a); [|discriminate].
  destruct (Rle_dec c b); [|discriminate].
  destruct (Rle_dec c a); [reflexivity | lra].
Qed.

(** X18. [largest10] needs at least 10 records: with fewer it raises
    [IndexError]; otherwise it returns the (token, score) pairs of the
    first 10 records of the list sorted by score, highest first. *)
Theorem largest10_needs_ten (A : list (Z * (string * R))) :
  largest10 A
  = (if (10 <=? List.length A)%nat
     then Return (map snd (firstn 10 (sorted_reverse A)))
     else Raise IndexError)
  /\ Permutation (sorted_reverse A) A
  /\ StronglySorted (fun a b => (getKey b <= getKey a)%R) (sorted_reverse A).
Proof.
  assert (Hp : Permutation (sorted_reverse A) A) by apply sortBy_perm.
  split; [|split; [exact Hp|]].
  - unfold largest10. cbv zeta.
    change (range 10) with (map Z.of_nat (seq 0 10)).
    rewrite append_items_spec by lia.
    rewrite (Permutation_length Hp). reflexivity.
  - unfold sorted_reverse.
    assert (Hs := sortBy_sorted getKey
                    (fun a b => if Rle_dec b a then true else false)
                    Rge_leb_total Rge_leb_trans A).
    eapply RankingFacts.sorted_weaken; [|exact Hs].
    intros a b H. cbv beta in H.
    destruct (Rle_dec (getKey b) (getKey a)); [assumption | discriminate].
Qed.

End Largest10Facts.

(** ** hw1: the whole program *)

Module MainFacts.
Import Py HW1 Spec.




Example main_short_text :
  snd (main ["To know you is to love you."] []) = Raise IndexError.
Proof. vm_compute. reflexivity. Qed.

End MainFacts.
